(** * Reading-order reconstruction of EasyOCR detections

    A shallow embedding of [EasyOCRBackend._process_easyocr_result]
    (src/kreuzberg/_ocr/_easyocr.py, lines 208-294) and the properties of
    its three paths: the empty result, the pre-merged [(text, confidence)]
    path and the geometric [(box, text, confidence)] path with its
    vertical sort, line sweep and per-line horizontal sort; then of
    [_validate_language_code] (lines 349-376) and of the backend methods
    around them, [_init_easyocr], [process_image] and [process_file],
    run against given collaborators.

    Numbers.  Box coordinates are Python integers (pixel positions), hence
    [Z].  The vertical center [sum(...) / 4] is a true division; it is
    modelled exactly in [Q] (for pixel-sized integers the float quotient by
    4 and the later subtraction are exact).  Confidences are only ever
    added up, so any numeric type would do: [Q]. *)

From Stdlib Require Import String Ascii.
From Stdlib Require Import List ZArith QArith Qabs Bool Lia.
From Stdlib Require Import Permutation Sorted.
Import ListNotations.

Local Open Scope Z_scope.

(* ------------------------------------------------------------------ *)
(** ** Exceptions and fallible computations *)

(** The exceptions the function can meet: the two raised by Python itself
    on a bad index or a bad unpacking, and the module's own
    [ValidationError] (imported on line 13). *)
Inductive exn : Type :=
| IndexError
| ValueError
| ValidationError.

Inductive res (A : Type) : Type :=
| Ok (a : A)
| Raise (e : exn).

Arguments Ok {A} a.
Arguments Raise {A} e.

Definition bind {A B : Type} (c : res A) (k : A -> res B) : res B :=
  match c with
  | Ok a => k a
  | Raise e => Raise e
  end.

Declare Scope res_scope.
Delimit Scope res_scope with res.
Notation "x <- c ;; k" := (bind c (fun x => k))
  (at level 61, c at next level, right associativity) : res_scope.
Notation "' p <- c ;; k" := (bind c (fun p => k))
  (at level 61, p pattern, c at next level, right associativity) : res_scope.
Local Open Scope res_scope.

(** [for x in l: body] with the loop variables threaded as a state. *)
Fixpoint for_each {S A : Type} (body : S -> A -> res S) (st : S) (l : list A)
  : res S :=
  match l with
  | [] => Ok st
  | x :: rest => st' <- body st x ;; for_each body st' rest
  end.

(** A list comprehension / [map] whose function may raise: the first
    failure, in list order, is the one that propagates. *)
Fixpoint map_res {A B : Type} (f : A -> res B) (l : list A) : res (list B) :=
  match l with
  | [] => Ok []
  | x :: rest => y <- f x ;; ys <- map_res f rest ;; Ok (y :: ys)
  end.

(* ------------------------------------------------------------------ *)
(** ** Data *)

(** A point [[x, y]]. *)
Definition point : Type := (Z * Z)%type.

(** A 3-tuple [(box, text, confidence)], the box being a list of points
    of any length: what [box, text, confidence = item] (line 256) unpacks. *)
Record detection : Type := mkDetection {
  box : list point;
  text : string;
  confidence : Q
}.

(** One element of the list returned by [reader.readtext]: a 2-tuple
    [(text, confidence)] or a 3-tuple [(box, text, confidence)]. *)
Inductive item : Type :=
| Pair (t : string) (c : Q)
| Triple (d : detection).

(** [len(item)] *)
Definition len (it : item) : Z :=
  match it with
  | Pair _ _ => 2
  | Triple _ => 3
  end.

(** Truth value of a Python string: non-empty. *)
Definition truthy (s : string) : bool :=
  match s with
  | EmptyString => false
  | String _ _ => true
  end.

Record Image : Type := mkImage { width : Z; height : Z }.

Record Metadata : Type := mkMetadata { meta_width : Z; meta_height : Z }.

Record ExtractionResult : Type := mkExtractionResult {
  content : string;
  mime_type : string;
  metadata : Metadata;
  chunks : list string
}.

(** The newline character and the one-character strings the code appends. *)
Definition nl : string := String (ascii_of_nat 10) EmptyString.
Definition sp : string := String (ascii_of_nat 32) EmptyString.

(* ------------------------------------------------------------------ *)
(** ** [sorted(l, key=...)]

    Python evaluates the key of every element first (an exception in a key
    aborts the call), then sorts the decorated list stably.  Insertion
    from the right, placing an element before the first one whose key is
    not smaller, is a stable sort. *)

Fixpoint insert_keyed {A : Type} (kx : Z * A) (l : list (Z * A)) : list (Z * A) :=
  match l with
  | [] => [kx]
  | ky :: rest =>
      if fst kx <=? fst ky then kx :: ky :: rest
      else ky :: insert_keyed kx rest
  end.

Fixpoint sort_keyed {A : Type} (l : list (Z * A)) : list (Z * A) :=
  match l with
  | [] => []
  | kx :: rest => insert_keyed kx (sort_keyed rest)
  end.

Definition decorate {A : Type} (key : A -> res Z) (l : list A) : res (list (Z * A)) :=
  map_res (fun x => k <- key x ;; Ok (k, x)) l.

Definition sorted {A : Type} (key : A -> res Z) (l : list A) : res (list A) :=
  kl <- decorate key l ;; Ok (map snd (sort_keyed kl)).

(** [v[i]] on a list. *)
Definition index {A : Type} (l : list A) (i : nat) : res A :=
  match nth_error l i with
  | Some x => Ok x
  | None => Raise IndexError
  end.

(** [lambda x: x[0][0][1] + x[0][2][1]] (line 249).  On a 2-tuple, [x[0]]
    is the text: [x[0][0]] raises IndexError on the empty string and is a
    one-character string otherwise, whose index 1 (or 2) raises
    IndexError. *)
Definition key_vertical (x : item) : res Z :=
  match x with
  | Pair _ _ => Raise IndexError
  | Triple d =>
      p0 <- index (box d) 0 ;;
      p2 <- index (box d) 2 ;;
      Ok (snd p0 + snd p2)
  end.

(** [lambda x: x[0][0][0]] (line 276), on the members of a line, which
    were all unpacked as 3-tuples on line 256. *)
Definition key_horizontal (x : detection) : res Z :=
  p0 <- index (box x) 0 ;;
  Ok (fst p0).

(* ------------------------------------------------------------------ *)
(** ** The line sweep (lines 250-269) *)

(** [sum(point[1] for point in box) / 4] (line 257). *)
Definition y_center (b : list point) : Q :=
  (inject_Z (fold_left Z.add (map snd b) 0%Z) / 4)%Q.

Definition line_height_threshold : Q := 20%Q.

(** [a > b] on numbers. *)
Definition Qgt_bool (a b : Q) : bool := negb (Qle_bool a b).

Record sweep_state : Type := mkSweep {
  line_groups : list (list detection);
  current_line : list detection;
  prev_y_center : option Q
}.

Definition sweep_init : sweep_state :=
  {| line_groups := []; current_line := []; prev_y_center := None |}.

(** [if current_line: line_groups.append(current_line)] *)
Definition flush (groups : list (list detection)) (line : list detection)
  : list (list detection) :=
  match line with
  | [] => groups
  | _ :: _ => groups ++ [line]
  end.

(** Whether line 259 opens a new line for a detection centered at [yc]. *)
Definition starts_new_line (prev : option Q) (yc : Q) : bool :=
  match prev with
  | None => true
  | Some p => Qgt_bool (Qabs (yc - p)) line_height_threshold
  end.

(** Body of the loop of lines 255-266. *)
Definition sweep_body (st : sweep_state) (it : item) : res sweep_state :=
  match it with
  | Pair _ _ => Raise ValueError
  | Triple d =>
      let yc := y_center (box d) in
      if starts_new_line (prev_y_center st) yc then
        Ok {| line_groups := flush (line_groups st) (current_line st);
              current_line := [d];
              prev_y_center := Some yc |}
      else
        Ok {| line_groups := line_groups st;
              current_line := current_line st ++ [d];
              prev_y_center := Some yc |}
  end.

(** Lines 250-269: the sweep and the final flush. *)
Definition sweep (sorted_results : list item)
  : res (list (list detection)) :=
  st <- for_each sweep_body sweep_init sorted_results ;;
  Ok (flush (line_groups st) (current_line st)).

(* ------------------------------------------------------------------ *)
(** ** Composition (lines 230-238 and 271-285) *)

(** The three accumulators [text_content], [confidence_sum],
    [confidence_count]. *)
Definition acc : Type := (string * Q * Z)%type.

Definition acc_init : acc := (EmptyString, 0%Q, 0).

Definition acc_text (a : acc) : string := fst (fst a).

(** Lines 235-238 and 280-283: append the text and a separator and count
    the confidence, for a non-empty text only. *)
Definition add_token (sep : string) (a : acc) (t : string) (c : Q) : acc :=
  let '(text_content, confidence_sum, confidence_count) := a in
  if truthy t then
    ((text_content ++ (t ++ sep))%string,
     (confidence_sum + c)%Q,
     confidence_count + 1)
  else a.

(** Body of [for text, confidence in result] (lines 234-238). *)
Definition premerged_body (a : acc) (it : item) : res acc :=
  match it with
  | Pair t c => Ok (add_token nl a t c)
  | Triple _ => Raise ValueError
  end.

(** Body of [for item in line_sorted] (lines 278-283). *)
Definition token_body (a : acc) (it : detection) : res acc :=
  Ok (add_token sp a (text it) (confidence it)).

(** Body of [for line in line_groups] (lines 275-285). *)
Definition line_body (a : acc) (line : list detection) : res acc :=
  line_sorted <- sorted key_horizontal line ;;
  '(text_content, confidence_sum, confidence_count) <-
     for_each token_body a line_sorted ;;
  Ok ((text_content ++ nl)%string, confidence_sum, confidence_count).

(* ------------------------------------------------------------------ *)
(** ** The function *)

Section Process.

(** [kreuzberg._utils._string.normalize_spaces] and
    [kreuzberg._mime_types.PLAIN_TEXT_MIME_TYPE] are imported from modules
    outside this file; the function is embedded over any such pair. *)
Variable normalize_spaces : string -> string.
Variable PLAIN_TEXT_MIME_TYPE : string.

Definition make_result (text : string) (image_w image_h : Z)
  : ExtractionResult :=
  {| content := text;
     mime_type := PLAIN_TEXT_MIME_TYPE;
     metadata := {| meta_width := image_w; meta_height := image_h |};
     chunks := [] |}.

Definition _process_easyocr_result (result : list item) (image : Image)
  : res ExtractionResult :=
  match result with
  | [] => Ok (make_result EmptyString (width image) (height image))
  | _ :: _ =>
      let expected_tuple_length := 2 in
      if forallb (fun item => len item =? expected_tuple_length) result then
        a <- for_each premerged_body acc_init result ;;
        Ok (make_result (normalize_spaces (acc_text a))
              (width image) (height image))
      else
        sorted_results <- sorted key_vertical result ;;
        groups <- sweep sorted_results ;;
        a <- for_each line_body acc_init groups ;;
        Ok (make_result (normalize_spaces (acc_text a))
              (width image) (height image))
  end.

End Process.

Arguments make_result PLAIN_TEXT_MIME_TYPE text image_w image_h /.

(* ------------------------------------------------------------------ *)
(** ** Whitespace normalization

    [normalize_spaces] is imported on line 11 from
    kreuzberg/_utils/_string.py, whose source is not part of this file.
    The general statements below hold for any function in its place; the
    sample texts are computed with the normalizer that the specification
    describes. *)

(** A space or a tab. *)
Definition is_blank (c : ascii) : bool :=
  (c =? ascii_of_nat 32)%char || (c =? ascii_of_nat 9)%char.

Definition is_newline (c : ascii) : bool := (c =? ascii_of_nat 10)%char.

(** Modelled from the spec: the first rule of [normalize_spaces], whose
    source is missing, "replace every maximal run of space/tab characters
    with one space; leave newlines untouched" (section 4.4). *)
Fixpoint collapse_blanks (s : string) : string :=
  match s with
  | EmptyString => EmptyString
  | String c rest =>
      if is_blank c then
        match rest with
        | EmptyString => sp
        | String c' _ =>
            if is_blank c' then collapse_blanks rest
            else String (ascii_of_nat 32) (collapse_blanks rest)
        end
      else String c (collapse_blanks rest)
  end.

(** Modelled from the spec: the second rule of [normalize_spaces], whose
    source is missing, "trim trailing space before each newline and at end
    of string" (section 4.4), the newline that ends the string being
    stripped by the same rule (section 8: "trailing newline stripped per
    normalization rule at string end").  A blank directly before a
    newline or at the end of the string is dropped, and so is a newline
    that ends the string. *)
Fixpoint trim_trailing (s : string) : string :=
  match s with
  | EmptyString => EmptyString
  | String c rest =>
      let rest' := trim_trailing rest in
      if is_blank c then
        match rest' with
        | EmptyString => EmptyString
        | String c' _ => if is_newline c' then rest' else String c rest'
        end
      else if is_newline c then
        match rest' with
        | EmptyString => EmptyString
        | String _ _ => String c rest'
        end
      else String c rest'
  end.

(** Modelled from the spec: [normalize_spaces] of
    kreuzberg/_utils/_string.py, whose source is missing: the two rules of
    section 4.4 of the specification, one after the other. *)
Definition normalize_spaces (s : string) : string :=
  trim_trailing (collapse_blanks s).

(** Modelled from the spec: [PLAIN_TEXT_MIME_TYPE] of
    kreuzberg/_mime_types.py, imported on line 8 and missing from the
    sources.  The specification leaves the MIME type out of the result it
    describes; the samples take the type the constant is named after, and
    no statement depends on it. *)
Definition PLAIN_TEXT_MIME_TYPE : string := "text/plain".

(** The function with the normalizer and MIME type above. *)
Definition process_easyocr_result : list item -> Image -> res ExtractionResult :=
  _process_easyocr_result normalize_spaces PLAIN_TEXT_MIME_TYPE.

(* ------------------------------------------------------------------ *)
(** ** Vocabulary of the statements *)

(** Lines 249-269 as one computation: the vertical sort, then the sweep. *)
Definition cluster_lines (result : list item) : res (list (list detection)) :=
  sorted_results <- sorted key_vertical result ;; sweep sorted_results.

(** The text component of an element of either shape. *)
Definition item_text (it : item) : string :=
  match it with
  | Pair t _ => t
  | Triple d => text d
  end.

Definition has_text (d : detection) : bool := truthy (text d).

(** The input without the elements whose text is empty. *)
Definition without_empty_texts (l : list item) : list item :=
  filter (fun it => truthy (item_text it)) l.

(** An element with its confidence replaced by 0: two inputs that differ
    in confidences only have the same image. *)
Definition forget_confidence_of (d : detection) : detection :=
  {| box := box d; text := text d; confidence := 0%Q |}.

Definition forget_confidence (it : item) : item :=
  match it with
  | Pair t _ => Pair t 0%Q
  | Triple d => Triple (forget_confidence_of d)
  end.

(** The box is long enough for both sort keys to exist. *)
Definition geometric (d : detection) : Prop := (3 <= length (box d))%nat.

(** The values of the two sort keys where they exist. *)
Definition top_bottom_key (d : detection) : Z :=
  snd (nth 0 (box d) (0, 0)) + snd (nth 2 (box d) (0, 0)).

Definition left_x (d : detection) : Z := fst (nth 0 (box d) (0, 0)).

(** The vertical center of the specification, [(box[0].y + box[2].y) / 2]. *)
Definition two_corner_center (d : detection) : Q :=
  (inject_Z (top_bottom_key d) / 2)%Q.

(** The center the sweep computes for a detection. *)
Definition center (d : detection) : Q := y_center (box d).

(** [b] lies more than the threshold away from [a]. *)
Definition far (a b : detection) : Prop :=
  (line_height_threshold < Qabs (center b - center a))%Q.

(** A stable insertion sort on a total key: what [sorted] computes when no
    key raises. *)
Fixpoint insert_by {A : Type} (kf : A -> Z) (x : A) (l : list A) : list A :=
  match l with
  | [] => [x]
  | y :: rest =>
      if kf x <=? kf y then x :: y :: rest else y :: insert_by kf x rest
  end.

Fixpoint sort_by {A : Type} (kf : A -> Z) (l : list A) : list A :=
  match l with
  | [] => []
  | x :: rest => insert_by kf x (sort_by kf rest)
  end.

(** The key paired with its element, as [sorted] decorates a list. *)
Definition decorated {A : Type} (kf : A -> Z) (x : A) : Z * A := (kf x, x).

(** The elements of [l] whose key is [k], in the order of [l]. *)
Definition with_key {A : Type} (kf : A -> Z) (k : Z) (l : list A) : list A :=
  filter (fun x => kf x =? k) l.

(** [s] is the stable ascending sort of [l] on [kf]: the same elements,
    in ascending key order, those of equal key in the order of [l]. *)
Definition stable_sort_of {A : Type} (kf : A -> Z) (l s : list A) : Prop :=
  Permutation l s /\
  StronglySorted (fun a b => kf a <= kf b) s /\
  forall k, with_key kf k s = with_key kf k l.

(** The non-empty texts of [ts], each followed by [sep]. *)
Definition tokens (sep : string) (ts : list string) : string :=
  String.concat EmptyString (map (fun t => (t ++ sep)%string) (filter truthy ts)).

(** What one line contributes to [text_content]: the non-empty texts of
    its members, each followed by a space, then a newline. *)
Definition line_buffer (line_sorted : list detection) : string :=
  (tokens sp (map text line_sorted) ++ nl)%string.

(** The raw text of a sequence of lines, each sorted on its left edges. *)
Definition raw_text (gs : list (list detection)) : string :=
  String.concat EmptyString
    (map (fun g => line_buffer (sort_by left_x g)) gs).

(** Consecutive members of a line are within the threshold of each
    other. *)
Fixpoint chained (g : list detection) : Prop :=
  match g with
  | a :: (b :: _) as rest => ~ far a b /\ chained rest
  | _ => True
  end.

(** The first member of each line but the first lies beyond the threshold
    from the last member of the line before. *)
Fixpoint separated (gs : list (list detection)) : Prop :=
  match gs with
  | g1 :: (g2 :: _) as rest =>
      (forall p a b q, g1 = p ++ [a] -> g2 = b :: q -> far a b)
      /\ separated rest
  | _ => True
  end.

(* ------------------------------------------------------------------ *)
(** ** The line groups by recursion *)

(** The line groups written by recursion on the sequence: a detection
    opens a line of its own when the next one is decided to start a new
    line against it, and is put in front of the next one's line
    otherwise. *)
Fixpoint chain_groups (ds : list detection) : list (list detection) :=
  match ds with
  | [] => []
  | a :: rest =>
      match rest with
      | [] => [[a]]
      | b :: _ =>
          if starts_new_line (Some (center a)) (center b)
          then [a] :: chain_groups rest
          else match chain_groups rest with
               | g :: gs => (a :: g) :: gs
               | [] => [[a]]
               end
      end
  end.

(** How a detection [x] followed by [h] is put in front of the lines of
    the sequence that starts with [h]. *)
Definition cons_line (x h : detection) (gs : list (list detection))
  : list (list detection) :=
  if starts_new_line (Some (center x)) (center h) then [x] :: gs
  else match gs with
       | g :: gs' => (x :: g) :: gs'
       | [] => [[x]]
       end.

(** The lines the loop closes from a state whose current line is [cur]
    and whose previous center is [p]. *)
Definition glue (p : Q) (cur : list detection) (ds : list detection)
  : list (list detection) :=
  match ds with
  | [] => [cur]
  | b :: _ =>
      if starts_new_line (Some p) (center b) then cur :: chain_groups ds
      else match chain_groups ds with
           | g :: gs => (cur ++ g) :: gs
           | [] => [cur]
           end
  end.

(* ------------------------------------------------------------------ *)
(** ** The Line Clusterer in the words of the specification *)

(** The sweep as section 4.2 of the specification words it: the reference
    of a line is the vertical center [c] of its first member and stays
    fixed while the line grows. *)
Fixpoint anchored_sweep (c : detection -> Q) (anchor : option Q)
         (cur : list detection) (ds : list detection)
  : list (list detection) :=
  match ds with
  | [] => flush [] cur
  | d :: rest =>
      if starts_new_line anchor (c d)
      then flush [] cur ++ anchored_sweep c (Some (c d)) [d] rest
      else anchored_sweep c anchor (cur ++ [d]) rest
  end.

(** That sweep on the vertical center of the specification, the mean of
    the y of corners 0 and 2. *)
Definition two_corner_lines (ds : list detection) : list (list detection) :=
  anchored_sweep two_corner_center None [] ds.

(* ------------------------------------------------------------------ *)
(** ** Sample inputs *)

(** An axis-aligned box in the winding order top-left, top-right,
    bottom-right, bottom-left. *)
Definition rect (left top right bottom : Z) : list point :=
  [(left, top); (right, top); (right, bottom); (left, bottom)].

(** A detection 30 wide and 10 high with its top-left corner at
    [(x, top)]. *)
Definition token (x top : Z) (t : string) : detection :=
  {| box := rect x top (x + 30) (top + 10); text := t; confidence := 9 # 10 |}.

Definition page_800_600 : Image := {| width := 800; height := 600 |}.

Definition hello_world : list item :=
  [Pair "Hello" (9 # 10); Pair "World" (8 # 10)].

(** Texts "B", "A", "C" at left edges 50, 10, 90 and vertical centers
    100, 102, 105. *)
Definition single_line_BAC : list detection :=
  [token 50 95 "B"; token 10 97 "A"; token 90 100 "C"].

(** Vertical centers 0, 15 and 30. *)
Definition d0 : detection := token 0 (-5) "a".
Definition d15 : detection := token 50 10 "b".
Definition d30 : detection := token 100 25 "c".

Definition drifting_input : list item := [Triple d0; Triple d15; Triple d30].

(** Vertical center 15, no text. *)
Definition blank15 : detection := token 50 10 EmptyString.

Definition bridged_input : list item := [Triple d0; Triple blank15; Triple d30].

(** An axis-aligned box and a trapezoid whose left side hangs low: the
    corners 0 and 2 put its center at 10, the four corners at 30. *)
Definition flat : detection := token 0 0 "flat".
Definition skewed : detection :=
  {| box := [(50, 0); (150, 0); (150, 20); (50, 100)];
     text := "skewed"; confidence := 9 # 10 |}.

(** A box of five points and a box of two. *)
Definition pentagon : detection :=
  {| box := [(0, 0); (40, 0); (50, 10); (40, 20); (0, 20)];
     text := "five"; confidence := 9 # 10 |}.

Definition segment : detection :=
  {| box := [(0, 0); (40, 20)]; text := "two"; confidence := 9 # 10 |}.

(** One element of each shape. *)
Definition mixed_input : list item :=
  [Pair "Hello" (9 # 10); Triple (token 10 95 "World")].

(* ------------------------------------------------------------------ *)
(** ** Language codes (lines 24-108 and 349-376) *)

(** The set literal [EASYOCR_SUPPORTED_LANGUAGE_CODES], in the order of
    the source; it is only ever tested for membership. *)
Definition EASYOCR_SUPPORTED_LANGUAGE_CODES : list string :=
  ["abq"; "ady"; "af"; "ang"; "ar"; "as"; "ava"; "az"; "be"; "bg"; "bh";
   "bho"; "bn"; "bs"; "ch_sim"; "ch_tra"; "che"; "cs"; "cy"; "da"; "dar";
   "de"; "en"; "es"; "et"; "fa"; "fr"; "ga"; "gom"; "hi"; "hr"; "hu"; "id";
   "inh"; "is"; "it"; "ja"; "kbd"; "kn"; "ko"; "ku"; "la"; "lbe"; "lez";
   "lt"; "lv"; "mah"; "mai"; "mi"; "mn"; "mr"; "ms"; "mt"; "ne"; "new";
   "nl"; "no"; "oc"; "pi"; "pl"; "pt"; "ro"; "ru"; "rs_cyrillic";
   "rs_latin"; "sck"; "sk"; "sl"; "sq"; "sv"; "sw"; "ta"; "tab"; "te";
   "th"; "tjk"; "tl"; "tr"; "ug"; "uk"; "ur"; "uz"; "vi"]%string.

(** [lang in EASYOCR_SUPPORTED_LANGUAGE_CODES] *)
Definition supported (lang : string) : bool :=
  existsb (String.eqb lang) EASYOCR_SUPPORTED_LANGUAGE_CODES.

(** [str.lower()] on ASCII text, the text of language codes: the letters
    A to Z are moved to a to z and every other character is kept. *)
Definition lower_char (c : ascii) : ascii :=
  let n := nat_of_ascii c in
  if ((65 <=? n) && (n <=? 90))%nat then ascii_of_nat (n + 32) else c.

Fixpoint lower (s : string) : string :=
  match s with
  | EmptyString => EmptyString
  | String c rest => String (lower_char c) (lower rest)
  end.

(** [_validate_language_code] (lines 349-376): a string that is not a
    list is one code, [inl]; a list of codes is [inr]. *)
Definition _validate_language_code (language_codes : string + list string)
  : res (list string) :=
  let languages :=
    match language_codes with
    | inl code => [lower code]
    | inr codes => map lower codes
    end in
  if forallb supported languages then Ok languages
  else Raise ValidationError.

(* ------------------------------------------------------------------ *)
(** ** The backend (lines 157-206 and 296-347)

    [process_image], [process_file], [_is_gpu_available] and
    [_init_easyocr] call into easyocr, torch and PIL and keep the reader
    in the class variable [_reader].  The collaborators are taken as
    given, [_reader] is threaded as a state, and a call is modelled on its
    own, from its start to its return ([await] and [run_sync] only say
    where other work may run meanwhile). *)

(** The keyword arguments [**kwargs: Unpack[EasyOCRConfig]]: the three
    keys the backend reads, each present or not, and the options it only
    passes on. *)
Record Kwargs (Options : Type) : Type := mkKwargs {
  language : option (string + list string);
  use_gpu : option bool;
  beam_width : option Z;
  other_options : Options
}.

Arguments mkKwargs {Options} language use_gpu beam_width other_options.
Arguments language {Options} k.
Arguments use_gpu {Options} k.
Arguments beam_width {Options} k.
Arguments other_options {Options} k.

(** The exceptions of the backend: those of the functions above, the
    ones Python raises on a missing key or attribute, the two of
    kreuzberg.exceptions the backend raises itself, and whatever the
    collaborators raise.  [OCRError message cause] is
    [raise OCRError(f"<message>{e}") from e], [message] being the constant
    part of the text. *)
Inductive error (Foreign : Type) : Type :=
| Builtin (e : exn)
| KeyError (key : string)
| AttributeError
| MissingDependencyError
| ForeignError (e : Foreign)
| OCRError (message : string) (cause : error Foreign).

Arguments Builtin {Foreign} e.
Arguments KeyError {Foreign} key.
Arguments AttributeError {Foreign}.
Arguments MissingDependencyError {Foreign}.
Arguments ForeignError {Foreign} e.
Arguments OCRError {Foreign} message cause.

(** What the backend is run against: whether [import easyocr] succeeds,
    what [torch.cuda.is_available()] answers ([None] when [import torch]
    fails), the constructor [easyocr.Reader(languages, gpu=..., verbose=
    False)], [reader.readtext(bytes, beamWidth=..., **kwargs)],
    [Image.open(path)] and [image.tobytes()]. *)
Record Collaborators : Type := mkCollaborators {
  Reader : Type;
  Foreign : Type;
  Options : Type;
  Path : Type;
  Bytes : Type;
  easyocr_installed : bool;
  torch_cuda_is_available : option bool;
  easyocr_Reader : list string -> option bool -> Foreign + Reader;
  readtext : Reader -> Bytes -> Z -> Kwargs Options -> Foreign + list item;
  Image_open : Path -> Foreign + Image;
  tobytes : Image -> Bytes
}.

Definition init_message : string := "Failed to initialize EasyOCR: ".
Definition ocr_message : string := "Failed to OCR using EasyOCR: ".
Definition load_message : string :=
  "Failed to load or process image using EasyOCR: ".

Section Backend.

Variable norm : string -> string.
Variable mime : string.
Variable W : Collaborators.

(** Lines 296-308. *)
Definition _is_gpu_available : bool :=
  match torch_cuda_is_available W with
  | Some available => available
  | None => false
  end.

(** [kwargs.pop("language", "en")] *)
Definition language_or_default (kwargs : Kwargs (Options W))
  : string + list string :=
  match language kwargs with
  | Some codes => codes
  | None => inl "en"%string
  end.

(** Lines 310-347.  The four [setdefault] of lines 333-336 write into the
    function's own copy of the keyword arguments, of which only
    ["use_gpu"] is read afterwards.  The state passed in is the class
    variable as the call reads it on line 321; the state returned is
    what the call leaves behind when no other call writes the variable
    during its [await] of line 340.  [init_step] below takes the call
    apart at that [await]. *)
Definition _init_easyocr (kwargs : Kwargs (Options W))
           (_reader : option (Reader W))
  : (error (Foreign W) + unit) * option (Reader W) :=
  match _reader with
  | Some _ => (inr tt, _reader)
  | None =>
      if easyocr_installed W then
        match _validate_language_code (language_or_default kwargs) with
        | Raise e => (inl (Builtin e), None)
        | Ok languages =>
            let has_gpu := _is_gpu_available in
            match easyocr_Reader W languages (use_gpu kwargs) with
            | inr reader => (inr tt, Some reader)
            | inl e => (inl (OCRError init_message (ForeignError e)), None)
            end
        end
      else (inl MissingDependencyError, None)
  end.

(** The keyword arguments after [kwargs.pop("beam_width")]. *)
Definition without_beam_width (kwargs : Kwargs (Options W))
  : Kwargs (Options W) :=
  {| language := language kwargs;
     use_gpu := use_gpu kwargs;
     beam_width := None;
     other_options := other_options kwargs |}.

(** The body of the [try] of lines 176-184. *)
Definition read_and_process (image : Image) (beam : Z)
           (kwargs : Kwargs (Options W)) (_reader : option (Reader W))
  : error (Foreign W) + ExtractionResult :=
  match _reader with
  | None => inl AttributeError
  | Some reader =>
      match readtext W reader (tobytes W image) beam kwargs with
      | inl e => inl (ForeignError e)
      | inr result =>
          match _process_easyocr_result norm mime result image with
          | Ok r => inr r
          | Raise e => inl (Builtin e)
          end
      end
  end.

(** Lines 160-186. *)
Definition process_image (image : Image) (kwargs : Kwargs (Options W))
           (_reader : option (Reader W))
  : (error (Foreign W) + ExtractionResult) * option (Reader W) :=
  match _init_easyocr kwargs _reader with
  | (inl e, st) => (inl e, st)
  | (inr _, st) =>
      match beam_width kwargs with
      | None => (inl (KeyError "beam_width"), st)
      | Some beam =>
          match read_and_process image beam (without_beam_width kwargs) st with
          | inr r => (inr r, st)
          | inl e => (inl (OCRError ocr_message e), st)
          end
      end
  end.

(** Lines 188-206. *)
Definition process_file (path : Path W) (kwargs : Kwargs (Options W))
           (_reader : option (Reader W))
  : (error (Foreign W) + ExtractionResult) * option (Reader W) :=
  match _init_easyocr kwargs _reader with
  | (inl e, st) => (inl e, st)
  | (inr _, st) =>
      match Image_open W path with
      | inl e => (inl (OCRError load_message (ForeignError e)), st)
      | inr image =>
          match process_image image kwargs st with
          | (inr r, st') => (inr r, st')
          | (inl e, st') => (inl (OCRError load_message e), st')
          end
      end
  end.

End Backend.

(** Calls in flight.  [_reader] is a class variable, and [_init_easyocr]
    reads it on line 321 and writes it on line 340 on either side of an
    [await]: other calls run in between.  The shared state is the class
    variable together with the initializations in flight, the calls that
    passed the test of line 321 and have not come back from the [await]
    yet, each with what its constructor call gives. *)
Record Shared (W : Collaborators) : Type := mkShared {
  shared_reader : option (Reader W);
  in_flight : list (Foreign W + Reader W)
}.

Arguments mkShared {W} shared_reader in_flight.
Arguments shared_reader {W} s.
Arguments in_flight {W} s.

(** What one call of [_init_easyocr] does to the shared state in one go,
    from its entry to its [await] or from its [await] to its end. *)
Inductive init_step (W : Collaborators) : Shared W -> Shared W -> Prop :=
| enter_returns (s : Shared W) :
    (* lines 321-322: the reader is set, the call returns *)
    shared_reader s <> None ->
    init_step W s s
| enter_raises (s : Shared W) (kwargs : Kwargs (Options W)) :
    (* lines 324-331: MissingDependencyError or ValidationError *)
    shared_reader s = None ->
    easyocr_installed W = false
    \/ (exists e, _validate_language_code (language_or_default W kwargs)
                  = Raise e) ->
    init_step W s s
| enter_awaits (s : Shared W) (kwargs : Kwargs (Options W))
               (languages : list string) :
    (* lines 321-340: the constructor is started and awaited *)
    shared_reader s = None ->
    easyocr_installed W = true ->
    _validate_language_code (language_or_default W kwargs) = Ok languages ->
    init_step W s
      {| shared_reader := None;
         in_flight := easyocr_Reader W languages (use_gpu kwargs)
                      :: in_flight s |}
| resume_assigns (s : Shared W) (before after : list (Foreign W + Reader W))
                 (reader : Reader W) :
    (* line 340: the awaited reader is assigned, whatever is there *)
    in_flight s = before ++ inr reader :: after ->
    init_step W s
      {| shared_reader := Some reader; in_flight := before ++ after |}
| resume_raises (s : Shared W) (before after : list (Foreign W + Reader W))
                (e : Foreign W) :
    (* lines 346-347: the constructor failed, OCRError *)
    in_flight s = before ++ inl e :: after ->
    init_step W s
      {| shared_reader := shared_reader s; in_flight := before ++ after |}.

(** Any number of such steps of any number of calls, in any order. *)
Inductive run (W : Collaborators) : Shared W -> Shared W -> Prop :=
| run_stop (s : Shared W) : run W s s
| run_step (s1 s2 s3 : Shared W) :
    run W s1 s2 -> init_step W s2 s3 -> run W s1 s3.

(** The codes of either form of the argument of
    [_validate_language_code]. *)
Definition codes_of (language_codes : string + list string) : list string :=
  match language_codes with
  | inl code => [code]
  | inr codes => codes
  end.

(** A world for the samples: easyocr is installed, torch is not, a reader
    is the list of its languages, and [readtext] answers [detections]. *)
Definition sample_world (detections : list item) : Collaborators :=
  {| Reader := list string;
     Foreign := string;
     Options := unit;
     Path := string;
     Bytes := unit;
     easyocr_installed := true;
     torch_cuda_is_available := None;
     easyocr_Reader := fun languages _ => inr languages;
     readtext := fun _ _ _ _ => inr detections;
     Image_open := fun _ => inr page_800_600;
     tobytes := fun _ => tt |}.

(* ------------------------------------------------------------------ *)
(** ** Vocabulary of the further properties *)

(** The input has one of the two shapes all through: 2-tuples only, or
    3-tuples only whose boxes have the corners the sort keys read. *)
Definition uniform_shapes (l : list item) : Prop :=
  Forall (fun it => len it = 2) l
  \/ exists ds, l = map Triple ds /\ Forall geometric ds.

(** The number of neighbours in a sequence that line 259 cuts apart. *)
Fixpoint count_breaks (s : list detection) : nat :=
  match s with
  | a :: (b :: _) as rest =>
      (if starts_new_line (Some (center a)) (center b) then 1 else 0)
      + count_breaks rest
  | _ => 0
  end%nat.

(** A box of exactly four points. *)
Definition quadrilateral (d : detection) : Prop := length (box d) = 4%nat.

(** The detection moved by [(dx, dy)]. *)
Definition translate (dx dy : Z) (d : detection) : detection :=
  {| box := map (fun p => (fst p + dx, snd p + dy)) (box d);
     text := text d;
     confidence := confidence d |}.

(** The y of every point of the box is at most 2^48 in absolute value.
    Within this range the sum of line 257 stays below 2^53, so that its
    float quotient by 4 and the difference taken on line 259 are exact,
    the numbers the rational [y_center] has. *)
Definition pixel_sized (d : detection) : Prop :=
  Forall (fun p => Z.abs (snd p) <= 2 ^ 48) (box d).

(** What the function reads of a 3-tuple: the x of corner 0, the y of
    every point of the box, and the text. *)
Definition read_part (d : detection) : Z * list Z * string :=
  (left_x d, map snd (box d), text d).

(** The detection with everything else blanked: the x of the corners
    after the first set to 0, the confidence set to 0. *)
Definition blanked (d : detection) : detection :=
  {| box := match box d with
            | [] => []
            | p :: rest => p :: map (fun q => (0, snd q)) rest
            end;
     text := text d;
     confidence := 0%Q |}.

(* ------------------------------------------------------------------ *)
(** ** The stable sort *)

Section SortFacts.

Context {A : Type}.
Variable kf : A -> Z.

Lemma insert_keyed_decorated (x : A) (l : list A) :
  insert_keyed (decorated kf x) (map (decorated kf) l) = map (decorated kf) (insert_by kf x l).
Proof.
  induction l as [| y l IH]; simpl; [reflexivity |].
  destruct (kf x <=? kf y); simpl; [reflexivity | now rewrite IH].
Qed.

Lemma sort_keyed_decorated (l : list A) :
  sort_keyed (map (decorated kf) l) = map (decorated kf) (sort_by kf l).
Proof.
  induction l as [| x l IH]; simpl; [reflexivity |].
  rewrite IH. apply insert_keyed_decorated.
Qed.

Lemma decorate_total (key : A -> res Z) (l : list A) :
  (forall x, In x l -> key x = Ok (kf x)) ->
  decorate key l = Ok (map (decorated kf) l).
Proof.
  unfold decorate. induction l as [| x l IH]; intros H; simpl; [reflexivity |].
  rewrite (H x (or_introl eq_refl)). simpl.
  rewrite IH by (intros y Hy; apply H; now right). reflexivity.
Qed.

Lemma sorted_total (key : A -> res Z) (l : list A) :
  (forall x, In x l -> key x = Ok (kf x)) ->
  sorted key l = Ok (sort_by kf l).
Proof.
  intros H. unfold sorted. rewrite (decorate_total key l H). simpl.
  rewrite sort_keyed_decorated, map_map. simpl. now rewrite map_id.
Qed.

Lemma insert_by_perm (x : A) (l : list A) :
  Permutation (x :: l) (insert_by kf x l).
Proof.
  induction l as [| y l IH]; simpl; [reflexivity |].
  destruct (kf x <=? kf y); [reflexivity |].
  rewrite perm_swap. now constructor.
Qed.

Lemma sort_by_perm (l : list A) : Permutation l (sort_by kf l).
Proof.
  induction l as [| x l IH]; simpl; [constructor |].
  rewrite <- insert_by_perm. now constructor.
Qed.

Lemma insert_by_sorted (x : A) (l : list A) :
  StronglySorted (fun a b => kf a <= kf b) l ->
  StronglySorted (fun a b => kf a <= kf b) (insert_by kf x l).
Proof.
  induction 1 as [| y l Hl IH Hy]; simpl.
  - repeat constructor.
  - destruct (Z.leb_spec (kf x) (kf y)) as [Hle | Hlt].
    + constructor; [now constructor |].
      constructor; [exact Hle |].
      eapply Forall_impl; [| exact Hy]. simpl. intros; lia.
    + constructor; [exact IH |].
      rewrite <- insert_by_perm. constructor; [lia | exact Hy].
Qed.

Lemma sort_by_sorted (l : list A) :
  StronglySorted (fun a b => kf a <= kf b) (sort_by kf l).
Proof.
  induction l as [| x l IH]; simpl; [constructor | now apply insert_by_sorted].
Qed.

Lemma with_key_insert (k : Z) (x : A) (l : list A) :
  with_key kf k (insert_by kf x l)
  = if kf x =? k then x :: with_key kf k l else with_key kf k l.
Proof.
  unfold with_key. induction l as [| y l IH]; simpl; [reflexivity |].
  destruct (Z.leb_spec (kf x) (kf y)) as [Hle | Hlt]; simpl; [reflexivity |].
  rewrite IH.
  destruct (Z.eqb_spec (kf x) k) as [Hx | Hx];
    destruct (Z.eqb_spec (kf y) k) as [Hy | Hy]; try reflexivity; lia.
Qed.

Lemma sort_by_stable (k : Z) (l : list A) :
  with_key kf k (sort_by kf l) = with_key kf k l.
Proof.
  induction l as [| x l IH]; simpl; [reflexivity |].
  rewrite with_key_insert, IH. unfold with_key at 3. simpl.
  now destruct (kf x =? k).
Qed.

Lemma sort_by_stable_sort_of (l : list A) : stable_sort_of kf l (sort_by kf l).
Proof.
  split; [apply sort_by_perm |].
  split; [apply sort_by_sorted | intros k; apply sort_by_stable].
Qed.

Lemma insert_by_front (x : A) (l : list A) :
  Forall (fun z => kf x <= kf z) l -> insert_by kf x l = x :: l.
Proof.
  destruct 1 as [| y l Hy _]; simpl; [reflexivity |].
  destruct (Z.leb_spec (kf x) (kf y)); [reflexivity | lia].
Qed.

Lemma filter_insert_keep (P : A -> bool) (x : A) (l : list A) :
  StronglySorted (fun a b => kf a <= kf b) l ->
  P x = true ->
  filter P (insert_by kf x l) = insert_by kf x (filter P l).
Proof.
  intros Hs Hx. induction Hs as [| y l Hl IH Hy]; simpl.
  - now rewrite Hx.
  - destruct (Z.leb_spec (kf x) (kf y)) as [Hle | Hlt]; simpl.
    + rewrite Hx. destruct (P y); simpl.
      * destruct (Z.leb_spec (kf x) (kf y)); [reflexivity | lia].
      * symmetry. apply insert_by_front.
        rewrite Forall_forall in *. intros z Hz.
        apply filter_In in Hz. specialize (Hy z (proj1 Hz)). simpl in Hy. lia.
    + rewrite IH. destruct (P y); simpl; [| reflexivity].
      destruct (Z.leb_spec (kf x) (kf y)); [lia | reflexivity].
Qed.

Lemma filter_insert_drop (P : A -> bool) (x : A) (l : list A) :
  P x = false -> filter P (insert_by kf x l) = filter P l.
Proof.
  intros Hx. induction l as [| y l IH]; simpl; [now rewrite Hx |].
  destruct (kf x <=? kf y); simpl; [now rewrite Hx |].
  now rewrite IH.
Qed.

Lemma sort_by_filter (P : A -> bool) (l : list A) :
  filter P (sort_by kf l) = sort_by kf (filter P l).
Proof.
  induction l as [| x l IH]; simpl; [reflexivity |].
  destruct (P x) eqn:Hx; simpl.
  - rewrite filter_insert_keep by (try apply sort_by_sorted; assumption).
    now rewrite IH.
  - now rewrite filter_insert_drop.
Qed.

End SortFacts.

Lemma sort_by_map {A B : Type} (ka : A -> Z) (kb : B -> Z) (f : A -> B) (l : list A) :
  (forall x, kb (f x) = ka x) ->
  sort_by kb (map f l) = map f (sort_by ka l).
Proof.
  intros Hk.
  assert (Hins : forall x s, insert_by kb (f x) (map f s) = map f (insert_by ka x s)).
  { intros x s. induction s as [| y s IH]; simpl; [reflexivity |].
    rewrite !Hk. destruct (ka x <=? ka y); simpl; [reflexivity | now rewrite IH]. }
  induction l as [| x l IH]; simpl; [reflexivity |].
  now rewrite IH, Hins.
Qed.

(** Two strictly ascending arrangements of the same elements coincide. *)
Lemma strictly_sorted_unique {A : Type} (kf : A -> Z) (l1 : list A) :
  forall l2,
    StronglySorted (fun a b => kf a < kf b) l1 ->
    StronglySorted (fun a b => kf a < kf b) l2 ->
    Permutation l1 l2 -> l1 = l2.
Proof.
  induction l1 as [| x l1 IH]; intros l2 H1 H2 HP.
  - now apply Permutation_nil in HP.
  - destruct l2 as [| y l2];
      [apply Permutation_sym, Permutation_nil in HP; discriminate |].
    inversion H1 as [| ? ? H1s H1h]; subst.
    inversion H2 as [| ? ? H2s H2h]; subst.
    assert (x = y) as ->.
    { assert (Hx : In x (y :: l2))
        by (eapply Permutation_in; [exact HP | now left]).
      assert (Hy : In y (x :: l1))
        by (eapply Permutation_in; [apply Permutation_sym; exact HP | now left]).
      destruct Hx as [Hx | Hx]; [now symmetry |].
      destruct Hy as [Hy | Hy]; [exact Hy |].
      rewrite Forall_forall in H1h, H2h.
      specialize (H1h y Hy). specialize (H2h x Hx). lia. }
    f_equal. apply IH; try assumption.
    now apply Permutation_cons_inv in HP.
Qed.

Lemma sorted_nodup_strict {A : Type} (kf : A -> Z) (l : list A) :
  StronglySorted (fun a b => kf a <= kf b) l ->
  NoDup (map kf l) ->
  StronglySorted (fun a b => kf a < kf b) l.
Proof.
  induction 1 as [| x l Hl IH Hx]; intros Hnd; [constructor |].
  simpl in Hnd. inversion Hnd as [| ? ? Hnotin Hnd']; subst.
  constructor; [now apply IH |].
  rewrite Forall_forall in *. intros z Hz.
  specialize (Hx z Hz). simpl in Hx.
  assert (kf x <> kf z) by (intros E; apply Hnotin; rewrite E; now apply in_map).
  lia.
Qed.

Lemma sort_by_permutation_invariant {A : Type} (kf : A -> Z) (l l' : list A) :
  NoDup (map kf l) -> Permutation l l' -> sort_by kf l = sort_by kf l'.
Proof.
  intros Hnd HP.
  apply (strictly_sorted_unique kf).
  - apply sorted_nodup_strict; [apply sort_by_sorted |].
    eapply Permutation_NoDup; [| exact Hnd].
    apply Permutation_map, sort_by_perm.
  - apply sorted_nodup_strict; [apply sort_by_sorted |].
    eapply Permutation_NoDup; [| exact Hnd].
    apply Permutation_map. rewrite <- sort_by_perm. exact HP.
  - rewrite <- !sort_by_perm. exact HP.
Qed.

(** A key that raises makes [sorted] raise; when every failure of the key
    is the same exception, that is the one raised. *)
Lemma decorate_raise {A : Type} (key : A -> res Z) (e : exn) (l : list A) :
  (forall y e', key y = Raise e' -> e' = e) ->
  (exists x, In x l /\ key x = Raise e) ->
  decorate key l = Raise e.
Proof.
  intros Hall. unfold decorate.
  induction l as [| y l IH]; intros [x [Hin Hx]]; [destruct Hin |].
  simpl. destruct (key y) as [k | e'] eqn:Hy; simpl.
  - destruct Hin as [-> | Hin]; [congruence |].
    rewrite IH by eauto. reflexivity.
  - now rewrite (Hall y e' Hy).
Qed.

Lemma sorted_raise {A : Type} (key : A -> res Z) (e : exn) (l : list A) :
  (forall y e', key y = Raise e' -> e' = e) ->
  (exists x, In x l /\ key x = Raise e) ->
  sorted key l = Raise e.
Proof.
  intros Hall Hex. unfold sorted. now rewrite (decorate_raise key e l Hall Hex).
Qed.

(* ------------------------------------------------------------------ *)
(** ** The two sort keys *)

Lemma index_nth {A : Type} (l : list A) (i : nat) (d : A) :
  (i < length l)%nat -> index l i = Ok (nth i l d).
Proof.
  intros H. unfold index. now rewrite (nth_error_nth' l d H).
Qed.

Lemma index_short {A : Type} (l : list A) (i : nat) :
  (length l <= i)%nat -> index l i = Raise IndexError.
Proof.
  intros H. unfold index.
  now rewrite (proj2 (nth_error_None l i) H).
Qed.

Lemma index_raises_IndexError {A : Type} (l : list A) (i : nat) (e : exn) :
  index l i = Raise e -> e = IndexError.
Proof.
  unfold index. destruct (nth_error l i); congruence.
Qed.

Lemma key_vertical_geometric (d : detection) :
  geometric d -> key_vertical (Triple d) = Ok (top_bottom_key d).
Proof.
  unfold geometric, key_vertical, top_bottom_key. intros H.
  rewrite (index_nth (box d) 0 (0, 0)) by lia. simpl.
  rewrite (index_nth (box d) 2 (0, 0)) by lia. reflexivity.
Qed.

Lemma key_vertical_short (d : detection) :
  (length (box d) < 3)%nat -> key_vertical (Triple d) = Raise IndexError.
Proof.
  unfold key_vertical. intros H.
  destruct (index (box d) 0) as [p0 | e] eqn:H0; simpl.
  - rewrite index_short by lia. reflexivity.
  - now rewrite (index_raises_IndexError _ _ _ H0).
Qed.

Lemma key_vertical_raises_IndexError (x : item) (e : exn) :
  key_vertical x = Raise e -> e = IndexError.
Proof.
  destruct x as [t c | d]; simpl; [congruence |].
  destruct (index (box d) 0) as [p0 | e0] eqn:H0; simpl.
  - destruct (index (box d) 2) as [p2 | e2] eqn:H2; simpl; [discriminate |].
    intros E; inversion E; subst. eapply index_raises_IndexError; eauto.
  - intros E; inversion E; subst. eapply index_raises_IndexError; eauto.
Qed.

Lemma key_horizontal_geometric (d : detection) :
  geometric d -> key_horizontal d = Ok (left_x d).
Proof.
  unfold geometric, key_horizontal, left_x. intros H.
  rewrite (index_nth (box d) 0 (0, 0)) by lia. reflexivity.
Qed.

(** On a list of well-formed geometric detections the vertical sort is the
    stable sort on [top_bottom_key]. *)
Lemma sorted_vertical (ds : list detection) :
  Forall geometric ds ->
  sorted key_vertical (map Triple ds) = Ok (map Triple (sort_by top_bottom_key ds)).
Proof.
  intros Hg.
  rewrite (sorted_total
             (fun x => match x with Triple d => top_bottom_key d | Pair _ _ => 0 end)).
  - f_equal. apply sort_by_map; reflexivity.
  - intros x Hx. apply in_map_iff in Hx. destruct Hx as [d [<- Hd]].
    apply key_vertical_geometric. rewrite Forall_forall in Hg. now apply Hg.
Qed.

Lemma sorted_horizontal (line : list detection) :
  Forall geometric line ->
  sorted key_horizontal line = Ok (sort_by left_x line).
Proof.
  intros Hg. apply sorted_total. intros x Hx.
  apply key_horizontal_geometric. rewrite Forall_forall in Hg. now apply Hg.
Qed.

(* ------------------------------------------------------------------ *)
(** ** The sweep *)

(** The state after the first detection is always the same. *)
Lemma sweep_body_first (d : detection) :
  sweep_body sweep_init (Triple d)
  = Ok {| line_groups := []; current_line := [d];
          prev_y_center := Some (center d) |}.
Proof. reflexivity. Qed.

Lemma glue_single (b : detection) (ds : list detection) :
  glue (center b) [b] ds = chain_groups (b :: ds).
Proof.
  destruct ds as [| c ds]; [reflexivity |].
  unfold glue. cbn [chain_groups].
  destruct (starts_new_line (Some (center b)) (center c)); [reflexivity |].
  destruct ds as [| c' ds]; [reflexivity |].
  destruct (starts_new_line (Some (center c)) (center c')); [reflexivity |].
  destruct (chain_groups (c' :: ds)); reflexivity.
Qed.

Lemma glue_snoc (cur : list detection) (b : detection) (ds : list detection) :
  glue (center b) (cur ++ [b]) ds
  = match chain_groups (b :: ds) with
    | g :: gs => (cur ++ g) :: gs
    | [] => [cur]
    end.
Proof.
  rewrite <- glue_single.
  destruct ds as [| c ds]; [reflexivity |].
  unfold glue.
  destruct (starts_new_line (Some (center b)) (center c)); [reflexivity |].
  destruct (chain_groups (c :: ds)) as [| g gs]; [reflexivity |].
  now rewrite <- app_assoc.
Qed.

Lemma sweep_loop (ds : list detection) :
  forall gs cur p,
    cur <> [] ->
    exists st,
      for_each sweep_body
        {| line_groups := gs; current_line := cur; prev_y_center := Some p |}
        (map Triple ds) = Ok st
      /\ flush (line_groups st) (current_line st) = gs ++ glue p cur ds.
Proof.
  induction ds as [| b ds IH]; intros gs cur p Hcur.
  - eexists; split; [reflexivity |]. simpl.
    destruct cur; [contradiction | reflexivity].
  - cbn [map for_each]. unfold sweep_body at 1. cbn [prev_y_center line_groups current_line].
    fold (center b).
    destruct (starts_new_line (Some p) (center b)) eqn:Hnew; cbn [bind].
    + destruct (IH (flush gs cur) [b] (center b)) as [st [Hrun Hst]];
        [discriminate |].
      exists st. split; [exact Hrun |]. rewrite Hst, glue_single.
      unfold glue. rewrite Hnew.
      destruct cur; [contradiction |]. simpl. now rewrite <- app_assoc.
    + destruct (IH gs (cur ++ [b]) (center b)) as [st [Hrun Hst]].
      { destruct cur; discriminate. }
      exists st. split; [exact Hrun |]. rewrite Hst, glue_snoc.
      unfold glue. now rewrite Hnew.
Qed.

(** The sweep never fails on 3-tuples, and its lines are [chain_groups]. *)
Lemma sweep_chain_groups (ds : list detection) :
  sweep (map Triple ds) = Ok (chain_groups ds).
Proof.
  unfold sweep. destruct ds as [| d ds]; [reflexivity |].
  cbn [map for_each]. rewrite sweep_body_first. cbn [bind].
  destruct (sweep_loop ds [] [d] (center d)) as [st [Hrun Hst]]; [discriminate |].
  rewrite Hrun. cbn [bind]. rewrite Hst, glue_single. reflexivity.
Qed.

Lemma starts_new_line_far (a b : detection) :
  starts_new_line (Some (center a)) (center b) = true <-> far a b.
Proof.
  unfold starts_new_line, Qgt_bool, far.
  rewrite negb_true_iff, <- not_true_iff_false, Qle_bool_iff.
  split; [apply Qnot_le_lt | apply Qlt_not_le].
Qed.

Lemma starts_new_line_near (a b : detection) :
  starts_new_line (Some (center a)) (center b) = false <-> ~ far a b.
Proof.
  rewrite <- starts_new_line_far. now destruct (starts_new_line _ _).
Qed.

Lemma chain_groups_concat (ds : list detection) :
  concat (chain_groups ds) = ds.
Proof.
  induction ds as [| a ds IH]; [reflexivity |].
  cbn [chain_groups]. destruct ds as [| b ds]; [reflexivity |].
  destruct (starts_new_line (Some (center a)) (center b)).
  - cbn [concat app]. now rewrite IH.
  - destruct (chain_groups (b :: ds)) as [| g gs] eqn:E.
    + simpl in IH. discriminate.
    + cbn [concat] in *. rewrite <- IH. reflexivity.
Qed.

Lemma chain_groups_nonempty (ds : list detection) :
  Forall (fun g => g <> []) (chain_groups ds).
Proof.
  induction ds as [| a ds IH]; [constructor |].
  cbn [chain_groups]. destruct ds as [| b ds]; [repeat constructor; discriminate |].
  destruct (starts_new_line (Some (center a)) (center b)).
  - constructor; [discriminate | exact IH].
  - destruct (chain_groups (b :: ds)) as [| g gs];
      [repeat constructor; discriminate |].
    inversion IH; subst. constructor; [discriminate | assumption].
Qed.

(** The first line of a non-empty sequence starts with its first element. *)
Lemma chain_groups_head (a : detection) (ds : list detection) :
  exists g gs, chain_groups (a :: ds) = (a :: g) :: gs.
Proof.
  cbn [chain_groups]. destruct ds as [| b ds]; [now exists [], [] |].
  destruct (starts_new_line (Some (center a)) (center b)); [now eauto |].
  destruct (chain_groups (b :: ds)) as [| g gs]; eauto.
Qed.

Lemma chain_groups_chained (ds : list detection) :
  Forall chained (chain_groups ds).
Proof.
  induction ds as [| a ds IH]; [constructor |].
  destruct ds as [| b ds]; [repeat constructor |].
  destruct (chain_groups_head b ds) as [g [gs E]].
  cbn [chain_groups] in *.
  destruct (starts_new_line (Some (center a)) (center b)) eqn:Hnew.
  - constructor; [exact I | exact IH].
  - rewrite E in *. inversion IH; subst.
    constructor; [| assumption].
    split; [now apply starts_new_line_near | assumption].
Qed.

Lemma chain_groups_separated (ds : list detection) :
  separated (chain_groups ds).
Proof.
  induction ds as [| a ds IH]; [exact I |].
  destruct ds as [| b ds]; [exact I |].
  destruct (chain_groups_head b ds) as [g [gs E]].
  cbn [chain_groups] in *.
  destruct (starts_new_line (Some (center a)) (center b)) eqn:Hnew.
  - rewrite E in *. split; [| exact IH].
    intros p x y q Hp Hq. inversion Hq; subst.
    destruct p as [| ? [| ? ?]]; inversion Hp; subst.
    now apply starts_new_line_far.
  - rewrite E in *. destruct gs as [| g2 gs]; [exact I |].
    destruct IH as [Hsep IH]. split; [| exact IH].
    intros p x y q Hp Hq.
    destruct p as [| a' p]; [destruct g; discriminate |].
    inversion Hp; subst. eapply Hsep; eauto.
Qed.

Lemma chain_groups_cons (x h : detection) (t : list detection) :
  chain_groups (x :: h :: t) = cons_line x h (chain_groups (h :: t)).
Proof. reflexivity. Qed.

Lemma cons_line_app (x h : detection) (g : list detection)
      (gs1 gs2 : list (list detection)) :
  cons_line x h ((g :: gs1) ++ gs2) = cons_line x h (g :: gs1) ++ gs2.
Proof.
  unfold cons_line. now destruct (starts_new_line _ _).
Qed.

Lemma cons_line_last (x h : detection) (gs1 : list (list detection))
      (g1 g2 : list detection) (gs2 : list (list detection)) :
  g1 <> [] ->
  exists gs1' g1',
    g1' <> [] /\
    cons_line x h (gs1 ++ [g1]) = gs1' ++ [g1'] /\
    cons_line x h (gs1 ++ (g1 ++ g2) :: gs2) = gs1' ++ (g1' ++ g2) :: gs2.
Proof.
  intros Hg1. unfold cons_line.
  destruct (starts_new_line _ _).
  - exists ([x] :: gs1), g1. now repeat split.
  - destruct gs1 as [| g0 gs1]; simpl.
    + exists [], (x :: g1). repeat split; discriminate.
    + exists ((x :: g0) :: gs1), g1. now repeat split.
Qed.

(** A break between two neighbours [a], [b] of the swept sequence cuts
    the line groups in two independent parts. *)
Lemma chain_groups_far (pre : list detection) (a b : detection)
      (post : list detection) :
  far a b ->
  chain_groups (pre ++ a :: b :: post)
  = chain_groups (pre ++ [a]) ++ chain_groups (b :: post).
Proof.
  intros Hfar. apply starts_new_line_far in Hfar.
  induction pre as [| x pre IH].
  - cbn [app]. rewrite chain_groups_cons. unfold cons_line. now rewrite Hfar.
  - destruct pre as [| h pre].
    + cbn [app] in *. rewrite (chain_groups_cons x a (b :: post)), IH.
      rewrite (chain_groups_cons x a []). cbn [chain_groups].
      apply (cons_line_app x a [a] []).
    + cbn [app] in *. rewrite !chain_groups_cons. rewrite IH.
      destruct (chain_groups_head h (pre ++ [a])) as [g [gs E]].
      rewrite E. apply cons_line_app.
Qed.

(** Two neighbours that are not far apart share a line, which is the last
    line of what comes before joined to the first line of what comes
    after. *)
Lemma chain_groups_near (pre : list detection) (a b : detection)
      (post : list detection) :
  ~ far a b ->
  exists gs1 g1 g2 gs2,
    g1 <> [] /\
    chain_groups (pre ++ [a]) = gs1 ++ [g1] /\
    chain_groups (b :: post) = g2 :: gs2 /\
    chain_groups (pre ++ a :: b :: post) = gs1 ++ (g1 ++ g2) :: gs2.
Proof.
  intros Hnear. apply starts_new_line_near in Hnear.
  destruct (chain_groups_head b post) as [g [gs Eb]].
  induction pre as [| x pre IH].
  - exists [], [a], (b :: g), gs. cbn [app].
    rewrite chain_groups_cons. unfold cons_line. rewrite Hnear, Eb.
    repeat split; discriminate.
  - destruct IH as [gs1 [g1 [g2 [gs2 [Hne [E1 [E2 E3]]]]]]].
    destruct pre as [| h pre]; cbn [app] in *.
    + rewrite (chain_groups_cons x a (b :: post)), E3.
      rewrite (chain_groups_cons x a []), E1.
      destruct (cons_line_last x a gs1 g1 g2 gs2 Hne) as [gs1' [g1' [Hne' [F1 F2]]]].
      exists gs1', g1', g2, gs2. now repeat split.
    + rewrite !chain_groups_cons, E3, E1.
      destruct (cons_line_last x h gs1 g1 g2 gs2 Hne) as [gs1' [g1' [Hne' [F1 F2]]]].
      exists gs1', g1', g2, gs2. now repeat split.
Qed.

(* ------------------------------------------------------------------ *)
(** ** Strings and the text accumulator *)

Lemma string_app_assoc (a b c : string) :
  ((a ++ b) ++ c)%string = (a ++ (b ++ c))%string.
Proof.
  induction a as [| x a IH]; simpl; [reflexivity | now rewrite IH].
Qed.

Lemma string_app_nil_r (a : string) : (a ++ EmptyString)%string = a.
Proof.
  induction a as [| x a IH]; simpl; [reflexivity | now rewrite IH].
Qed.

Lemma concat_empty_cons (s : string) (l : list string) :
  String.concat EmptyString (s :: l) = (s ++ String.concat EmptyString l)%string.
Proof.
  destruct l; simpl; [now rewrite string_app_nil_r | reflexivity].
Qed.

Lemma concat_empty_app (l1 l2 : list string) :
  String.concat EmptyString (l1 ++ l2)
  = (String.concat EmptyString l1 ++ String.concat EmptyString l2)%string.
Proof.
  induction l1 as [| s l1 IH]; [reflexivity |].
  rewrite <- app_comm_cons, !concat_empty_cons, IH.
  now rewrite string_app_assoc.
Qed.

Lemma tokens_filter (sep : string) (ts : list string) :
  tokens sep (filter truthy ts) = tokens sep ts.
Proof.
  unfold tokens. f_equal. f_equal.
  induction ts as [| t ts IH]; simpl; [reflexivity |].
  destruct (truthy t) eqn:E; simpl; [now rewrite E, IH | exact IH].
Qed.

(** Joining with a separator is appending the separator to all but the
    last. *)
Lemma tokens_join (sep : string) (ts : list string) :
  filter truthy ts <> [] ->
  tokens sep ts = (String.concat sep (filter truthy ts) ++ sep)%string.
Proof.
  unfold tokens. induction (filter truthy ts) as [| t l IH]; intros H;
    [contradiction |].
  destruct l as [| t' l].
  - reflexivity.
  - rewrite map_cons, concat_empty_cons, IH by discriminate.
    cbn [String.concat]. now rewrite !string_app_assoc.
Qed.

Lemma add_token_text (sep : string) (a : acc) (t : string) (c : Q) :
  acc_text (add_token sep a t c)
  = (acc_text a ++ tokens sep [t])%string.
Proof.
  destruct a as [[tc cs] cc]. unfold add_token, acc_text, tokens. simpl.
  destruct (truthy t); simpl; [reflexivity | now rewrite string_app_nil_r].
Qed.

Lemma tokens_app (sep : string) (ts1 ts2 : list string) :
  tokens sep (ts1 ++ ts2) = (tokens sep ts1 ++ tokens sep ts2)%string.
Proof.
  unfold tokens. now rewrite filter_app, map_app, concat_empty_app.
Qed.

(** The token loop of a line: always succeeds; its text grows by the
    non-empty texts, each followed by a space. *)
Lemma token_loop (line : list detection) :
  forall a, exists a',
    for_each token_body a line = Ok a'
    /\ acc_text a' = (acc_text a ++ tokens sp (map text line))%string.
Proof.
  induction line as [| d line IH]; intros a.
  - exists a. split; [reflexivity |]. now rewrite string_app_nil_r.
  - cbn [for_each]. unfold token_body at 1. cbn [bind].
    destruct (IH (add_token sp a (text d) (confidence d))) as [a' [Hrun Htext]].
    exists a'. split; [exact Hrun |].
    rewrite Htext, add_token_text, string_app_assoc.
    f_equal. symmetry. apply (tokens_app sp [text d]).
Qed.

Lemma premerged_loop (l : list item) :
  Forall (fun it => len it = 2) l ->
  forall a, exists a',
    for_each premerged_body a l = Ok a'
    /\ acc_text a' = (acc_text a ++ tokens nl (map item_text l))%string.
Proof.
  induction 1 as [| it l Hit Hl IH]; intros a.
  - exists a. split; [reflexivity |]. now rewrite string_app_nil_r.
  - destruct it as [t c | d]; [| discriminate].
    cbn [for_each premerged_body bind].
    destruct (IH (add_token nl a t c)) as [a' [Hrun Htext]].
    exists a'. split; [exact Hrun |].
    rewrite Htext, add_token_text, string_app_assoc.
    f_equal. symmetry. apply (tokens_app nl [t]).
Qed.

Lemma line_loop (gs : list (list detection)) :
  Forall (Forall geometric) gs ->
  forall a, exists a',
    for_each line_body a gs = Ok a'
    /\ acc_text a' = (acc_text a ++ raw_text gs)%string.
Proof.
  induction 1 as [| g gs Hg Hgs IH]; intros a.
  - exists a. split; [reflexivity |]. now rewrite string_app_nil_r.
  - cbn [for_each]. unfold line_body at 1.
    rewrite (sorted_horizontal g Hg). cbn [bind].
    destruct (token_loop (sort_by left_x g) a) as [[[tc cs] cc] [Hrun Htext]].
    rewrite Hrun. cbn [bind].
    destruct (IH ((tc ++ nl)%string, cs, cc)) as [a' [Hrun' Htext']].
    exists a'. split; [exact Hrun' |].
    rewrite Htext'. unfold acc_text at 1. cbn [fst].
    unfold acc_text at 1 in Htext. cbn [fst] in Htext. rewrite Htext.
    unfold raw_text. cbn [map]. rewrite concat_empty_cons.
    unfold line_buffer at 2. now rewrite !string_app_assoc.
Qed.

(* ------------------------------------------------------------------ *)
(** ** The three paths of the function *)

Section Paths.

Variable norm : string -> string.
Variable mime : string.
Variable image : Image.

Lemma all_pairs_forallb (l : list item) :
  Forall (fun it => len it = 2) l ->
  forallb (fun item => len item =? 2) l = true.
Proof.
  intros H. apply forallb_forall. rewrite Forall_forall in H.
  intros x Hx. apply Z.eqb_eq. now apply H.
Qed.

Lemma some_triple_forallb (l : list item) (d : detection) :
  In (Triple d) l -> forallb (fun item => len item =? 2) l = false.
Proof.
  intros Hin. apply not_true_iff_false. intros Hall.
  rewrite forallb_forall in Hall. specialize (Hall _ Hin). discriminate.
Qed.

(** Off the pre-merged path the function composes the lines of
    [cluster_lines]. *)
Lemma process_clusters_lines (l : list item) :
  l <> [] ->
  forallb (fun item => len item =? 2) l = false ->
  _process_easyocr_result norm mime l image
  = (groups <- cluster_lines l ;;
     a <- for_each line_body acc_init groups ;;
     Ok (make_result mime (norm (acc_text a)) (width image) (height image))).
Proof.
  intros Hne Hall. unfold _process_easyocr_result, cluster_lines.
  destruct l as [| x l]; [contradiction |]. rewrite Hall.
  now destruct (sorted key_vertical (x :: l)).
Qed.

(** The pre-merged path (lines 229-247). *)
Lemma process_premerged (l : list item) :
  l <> [] ->
  Forall (fun it => len it = 2) l ->
  _process_easyocr_result norm mime l image
  = Ok (make_result mime (norm (tokens nl (map item_text l)))
          (width image) (height image)).
Proof.
  intros Hne Hall. unfold _process_easyocr_result.
  destruct l as [| it l]; [contradiction |].
  rewrite (all_pairs_forallb _ Hall).
  destruct (premerged_loop _ Hall acc_init) as [a [Hrun Htext]].
  rewrite Hrun. cbn [bind]. now rewrite Htext.
Qed.

(** The geometric path (lines 249-294) on well-formed detections. *)
Lemma process_geometric (ds : list detection) :
  ds <> [] ->
  Forall geometric ds ->
  _process_easyocr_result norm mime (map Triple ds) image
  = Ok (make_result mime
          (norm (raw_text (chain_groups (sort_by top_bottom_key ds))))
          (width image) (height image)).
Proof.
  intros Hne Hg. unfold _process_easyocr_result.
  destruct ds as [| d ds]; [contradiction |].
  cbn [map]. rewrite (some_triple_forallb (Triple d :: map Triple ds) d)
    by now left.
  change (Triple d :: map Triple ds) with (map Triple (d :: ds)).
  rewrite (sorted_vertical _ Hg). cbn [bind].
  rewrite sweep_chain_groups. cbn [bind].
  destruct (line_loop (chain_groups (sort_by top_bottom_key (d :: ds))))
    with (a := acc_init) as [a [Hrun Htext]].
  { apply Forall_concat. rewrite chain_groups_concat.
    eapply Permutation_Forall; [apply sort_by_perm | exact Hg]. }
  rewrite Hrun. cbn [bind]. now rewrite Htext.
Qed.

(** Off the pre-merged path, an element without a vertical key stops the
    function in the sort of line 249. *)
Lemma process_key_error (l : list item) (d : detection) :
  In (Triple d) l ->
  (exists x, In x l /\ key_vertical x = Raise IndexError) ->
  _process_easyocr_result norm mime l image = Raise IndexError.
Proof.
  intros Hin Hex. unfold _process_easyocr_result.
  destruct l as [| it l]; [destruct Hin |].
  rewrite (some_triple_forallb _ d Hin).
  rewrite (sorted_raise key_vertical IndexError);
    [reflexivity | apply key_vertical_raises_IndexError | exact Hex].
Qed.

End Paths.

(* ------------------------------------------------------------------ *)
(** ** The normalizer *)

Lemma collapse_blanks_newline (s : string) :
  collapse_blanks (s ++ nl) = (collapse_blanks s ++ nl)%string.
Proof.
  induction s as [| c rest IH]; [reflexivity |].
  cbn [append collapse_blanks]. destruct (is_blank c).
  - destruct rest as [| c' rest']; [reflexivity |].
    cbn [append] in *. destruct (is_blank c'); [exact IH |].
    now rewrite IH.
  - now rewrite IH.
Qed.

Lemma trim_trailing_newline (s : string) :
  trim_trailing (s ++ nl) = trim_trailing s.
Proof.
  induction s as [| c rest IH]; [reflexivity |].
  cbn [append trim_trailing]. now rewrite IH.
Qed.

(** A newline that ends the text is shed by the normalizer. *)
Lemma normalize_spaces_newline (s : string) :
  normalize_spaces (s ++ nl) = normalize_spaces s.
Proof.
  unfold normalize_spaces.
  now rewrite collapse_blanks_newline, trim_trailing_newline.
Qed.

(* ------------------------------------------------------------------ *)
(** ** Empty input *)

(** C4.  The empty detection list is a normal result, for any page: the
    text is the empty string and the metadata carry the page's width and
    height; zero detections on an 800 x 600 page give the empty text and
    metadata (800, 600). *)
Theorem empty_input_is_terminal :
  (forall (norm : string -> string) (mime : string) (image : Image),
      exists r,
        _process_easyocr_result norm mime [] image = Ok r
        /\ content r = EmptyString
        /\ meta_width (metadata r) = width image
        /\ meta_height (metadata r) = height image)
  /\ process_easyocr_result [] page_800_600
     = Ok {| content := EmptyString;
             mime_type := PLAIN_TEXT_MIME_TYPE;
             metadata := {| meta_width := 800; meta_height := 600 |};
             chunks := [] |}.
Proof.
  split; [| reflexivity].
  intros norm mime image. eexists. split; [reflexivity |].
  repeat split.
Qed.

(* ------------------------------------------------------------------ *)
(** ** The pre-merged path *)

(** The separator and the guard of lines 235-236 written out: [tokens nl]
    puts the one-character string of the line feed, character 10, after
    each text, and keeps the texts that differ from the empty string. *)
Lemma tokens_nl_literal (ts : list string) :
  tokens nl ts
  = String.concat EmptyString
      (map (fun t => (t ++ String "010" EmptyString)%string)
           (filter (fun t => negb (String.eqb t EmptyString)) ts)).
Proof.
  unfold tokens. f_equal.
  rewrite (filter_ext truthy (fun t => negb (String.eqb t EmptyString)));
    [reflexivity |].
  now intros [| c t].
Qed.

(** C5.  On a non-empty list of 2-tuples no line is clustered.  The texts
    that differ from the empty string are taken in input order, each
    followed by a line feed (character 10), and the whole is normalized;
    with the normalizer of the specification this is the normalized join
    of those texts with a line feed as separator.
    [("Hello", 0.9), ("World", 0.8)] gives "Hello", a line feed, "World";
    so does the same list with an element of empty text in the middle,
    which leaves no trace, not even a line feed, in the text before
    normalization either. *)
Theorem premerged_texts_joined_by_newline :
  (forall (norm : string -> string) (mime : string) (image : Image)
          (result : list item),
      result <> [] ->
      Forall (fun it => len it = 2) result ->
      _process_easyocr_result norm mime result image
      = Ok {| content :=
                norm (String.concat EmptyString
                        (map (fun t => (t ++ String "010" EmptyString)%string)
                           (filter (fun t => negb (String.eqb t EmptyString))
                              (map item_text result))));
              mime_type := mime;
              metadata := {| meta_width := width image;
                             meta_height := height image |};
              chunks := [] |})
  /\ (forall (image : Image) (result : list item),
         result <> [] ->
         Forall (fun it => len it = 2) result ->
         exists r,
           process_easyocr_result result image = Ok r
           /\ content r
              = normalize_spaces
                  (String.concat (String "010" EmptyString)
                     (filter (fun t => negb (String.eqb t EmptyString))
                        (map item_text result))))
  /\ (exists r,
         process_easyocr_result
           [Pair "Hello" (9 # 10); Pair "World" (8 # 10)] page_800_600 = Ok r
         /\ content r = ("Hello" ++ String "010" "World")%string)
  /\ (exists r,
         process_easyocr_result
           [Pair "Hello" (9 # 10); Pair EmptyString (1 # 2);
            Pair "World" (8 # 10)] page_800_600 = Ok r
         /\ content r = ("Hello" ++ String "010" "World")%string)
  /\ (forall mime : string,
         exists r,
           _process_easyocr_result (fun raw => raw) mime
             [Pair "Hello" (9 # 10); Pair EmptyString (1 # 2);
              Pair "World" (8 # 10)] page_800_600 = Ok r
           /\ content r
              = ("Hello" ++ String "010" ("World" ++ String "010" EmptyString))
                  %string).
Proof.
  split; [| split; [| split; [| split]]].
  - intros norm mime image result Hne Hall.
    now rewrite process_premerged, tokens_nl_literal.
  - intros image result Hne Hall. unfold process_easyocr_result.
    rewrite process_premerged by assumption.
    eexists. split; [reflexivity |]. cbn [make_result content].
    rewrite <- (filter_ext truthy (fun t => negb (String.eqb t EmptyString)))
      by now intros [| c t].
    destruct (filter truthy (map item_text result)) as [| t ts] eqn:E.
    + unfold tokens. now rewrite E.
    + rewrite tokens_join by (rewrite E; discriminate).
      change (String "010" EmptyString) with nl.
      now rewrite normalize_spaces_newline, E.
  - eexists. split; reflexivity.
  - eexists. split; reflexivity.
  - intros mime. eexists. split; reflexivity.
Qed.

Lemma premerged_texts_joined_by_newline_witness :
  _process_easyocr_result normalize_spaces PLAIN_TEXT_MIME_TYPE
    [Pair "Hello" (9 # 10); Pair EmptyString (1 # 2); Pair "World" (8 # 10)]
    page_800_600
  = Ok {| content := ("Hello" ++ String "010" "World")%string;
          mime_type := PLAIN_TEXT_MIME_TYPE;
          metadata := {| meta_width := 800; meta_height := 600 |};
          chunks := [] |}.
Proof.
  rewrite (proj1 premerged_texts_joined_by_newline
             normalize_spaces PLAIN_TEXT_MIME_TYPE page_800_600
             [Pair "Hello" (9 # 10); Pair EmptyString (1 # 2);
              Pair "World" (8 # 10)]).
  - reflexivity.
  - discriminate.
  - repeat constructor.
Defined.

(* ------------------------------------------------------------------ *)
(** ** The Line Clusterer and the Line Composer *)

Lemma cluster_lines_geometric (ds : list detection) :
  Forall geometric ds ->
  cluster_lines (map Triple ds)
  = Ok (chain_groups (sort_by top_bottom_key ds)).
Proof.
  intros Hg. unfold cluster_lines. rewrite (sorted_vertical _ Hg). cbn [bind].
  apply sweep_chain_groups.
Qed.

Lemma chain_groups_geometric (ds : list detection) :
  Forall geometric ds -> Forall (Forall geometric) (chain_groups ds).
Proof.
  intros Hg. apply Forall_concat. now rewrite chain_groups_concat.
Qed.

Lemma Forall2_map_r {A B : Type} (R : A -> B -> Prop) (f : A -> B) (l : list A) :
  (forall x, In x l -> R x (f x)) -> Forall2 R l (map f l).
Proof.
  induction l as [| x l IH]; intros H; simpl; constructor.
  - apply H. now left.
  - apply IH. intros y Hy. apply H. now right.
Qed.

Lemma trim_trailing_cons (c : ascii) (s s' : string) :
  trim_trailing s = trim_trailing s' ->
  trim_trailing (String c s) = trim_trailing (String c s').
Proof.
  intros H. cbn [trim_trailing]. now rewrite H.
Qed.

(** A space that ends the text is shed by the normalizer. *)
Lemma normalize_spaces_space (s : string) :
  normalize_spaces (s ++ sp) = normalize_spaces s.
Proof.
  unfold normalize_spaces.
  induction s as [| c rest IH]; [reflexivity |].
  cbn [append collapse_blanks]. destruct (is_blank c).
  - destruct rest as [| c' rest']; [reflexivity |].
    cbn [append] in *. destruct (is_blank c'); [exact IH |].
    now apply trim_trailing_cons.
  - now apply trim_trailing_cons.
Qed.

(** C6.  Each clustered line is sorted stably and ascending on the x of
    corner 0 of its members (members of equal key keep the order in which
    the line, the input of this sort, holds them), and contributes its members' non-empty texts, each followed by
    one space, then a newline; the normalizer turns one such buffer into
    the texts joined by single spaces.  Texts "B", "A", "C" at left edges
    50, 10, 90 with vertical centers 100, 102, 105 compose to "A B C". *)
Theorem line_members_sorted_left_to_right :
  (forall (norm : string -> string) (mime : string) (image : Image)
          (ds : list detection),
      ds <> [] ->
      Forall geometric ds ->
      exists groups sorted_lines,
        cluster_lines (map Triple ds) = Ok groups
        /\ Forall2 (fun line line_sorted =>
                      sorted key_horizontal line = Ok line_sorted
                      /\ stable_sort_of left_x line line_sorted)
             groups sorted_lines
        /\ _process_easyocr_result norm mime (map Triple ds) image
           = Ok {| content :=
                     norm (String.concat EmptyString
                             (map line_buffer sorted_lines));
                   mime_type := mime;
                   metadata := {| meta_width := width image;
                                  meta_height := height image |};
                   chunks := [] |})
  /\ (forall line_sorted : list detection,
         normalize_spaces (line_buffer line_sorted)
         = normalize_spaces
             (String.concat sp (filter truthy (map text line_sorted))))
  /\ (map left_x single_line_BAC = [50; 10; 90]
      /\ map top_bottom_key single_line_BAC = [200; 204; 210]
      /\ cluster_lines (map Triple single_line_BAC) = Ok [single_line_BAC]
      /\ exists r,
          process_easyocr_result (map Triple single_line_BAC) page_800_600
          = Ok r
          /\ content r = "A B C"%string).
Proof.
  split; [| split].
  - intros norm mime image ds Hne Hg.
    exists (chain_groups (sort_by top_bottom_key ds)).
    exists (map (sort_by left_x) (chain_groups (sort_by top_bottom_key ds))).
    assert (Hs : Forall geometric (sort_by top_bottom_key ds))
      by (eapply Permutation_Forall; [apply sort_by_perm | exact Hg]).
    split; [now apply cluster_lines_geometric |].
    split.
    + apply Forall2_map_r. intros g Hin.
      pose proof (chain_groups_geometric _ Hs) as Hgs.
      rewrite Forall_forall in Hgs.
      split; [apply sorted_horizontal; now apply Hgs |].
      apply sort_by_stable_sort_of.
    + rewrite process_geometric by assumption.
      unfold raw_text, make_result. now rewrite map_map.
  - intros line_sorted. unfold line_buffer.
    rewrite normalize_spaces_newline.
    destruct (filter truthy (map text line_sorted)) as [| t ts] eqn:E.
    + unfold tokens. now rewrite E.
    + rewrite tokens_join by (rewrite E; discriminate).
      now rewrite normalize_spaces_space, E.
  - repeat split. eexists. split; reflexivity.
Qed.

Lemma line_members_sorted_left_to_right_witness :
  exists groups sorted_lines,
    cluster_lines (map Triple single_line_BAC) = Ok groups
    /\ Forall2 (fun line line_sorted =>
                  sorted key_horizontal line = Ok line_sorted
                  /\ stable_sort_of left_x line line_sorted)
         groups sorted_lines
    /\ _process_easyocr_result normalize_spaces PLAIN_TEXT_MIME_TYPE
         (map Triple single_line_BAC) page_800_600
       = Ok {| content :=
                 normalize_spaces
                   (String.concat EmptyString (map line_buffer sorted_lines));
               mime_type := PLAIN_TEXT_MIME_TYPE;
               metadata := {| meta_width := 800; meta_height := 600 |};
               chunks := [] |}.
Proof.
  apply (proj1 line_members_sorted_left_to_right
           normalize_spaces PLAIN_TEXT_MIME_TYPE page_800_600 single_line_BAC).
  - discriminate.
  - repeat constructor.
Defined.

(* ------------------------------------------------------------------ *)
(** ** The reference of the sweep *)

(** C1 as stated fails.  With vertical centers 0, 15 and 30 the function
    puts all three detections on one line: the third is 15 away from the
    second.  Comparing against the line's first member, as the
    specification words the sweep, would have cut before the third. *)
Lemma anchor_counterexample :
  (center d0 == 0 /\ center d15 == 15 /\ center d30 == 30)%Q
  /\ (two_corner_center d0 == 0 /\ two_corner_center d15 == 15
      /\ two_corner_center d30 == 30)%Q
  /\ cluster_lines drifting_input = Ok [[d0; d15; d30]]
  /\ anchored_sweep center None [] [d0; d15; d30] = [[d0; d15]; [d30]]
  /\ two_corner_lines [d0; d15; d30] = [[d0; d15]; [d30]]
  /\ cluster_lines drifting_input <> Ok [[d0; d15]; [d30]].
Proof.
  split; [repeat split |].
  split; [repeat split |].
  split; [reflexivity |].
  split; [reflexivity |].
  split; [reflexivity | discriminate].
Qed.

(** C1, amended.  The sweep compares each detection's vertical center
    with the center of the detection just before it in the sorted
    sequence, whatever line that one is in: two neighbours [a], [b] more
    than 20 apart are cut apart, the lines before and after the cut being
    those of the two parts swept alone; two neighbours at most 20 apart
    share a line, the last line of the part up to [a] joined with the
    first line of the part from [b] on.  With vertical centers 0, 15 and
    30 the three detections are one line. *)
Theorem sweep_compares_with_previous_detection :
  (forall (pre : list detection) (a b : detection) (post : list detection),
      far a b ->
      exists before after,
        sweep (map Triple (pre ++ [a])) = Ok before
        /\ sweep (map Triple (b :: post)) = Ok after
        /\ sweep (map Triple (pre ++ a :: b :: post)) = Ok (before ++ after))
  /\ (forall (pre : list detection) (a b : detection) (post : list detection),
         ~ far a b ->
         exists gs1 g1 g2 gs2,
           sweep (map Triple (pre ++ [a])) = Ok (gs1 ++ [g1])
           /\ sweep (map Triple (b :: post)) = Ok (g2 :: gs2)
           /\ sweep (map Triple (pre ++ a :: b :: post))
              = Ok (gs1 ++ (g1 ++ g2) :: gs2))
  /\ cluster_lines drifting_input = Ok [[d0; d15; d30]].
Proof.
  split; [| split].
  - intros pre a b post Hfar.
    exists (chain_groups (pre ++ [a])), (chain_groups (b :: post)).
    rewrite !sweep_chain_groups. repeat split.
    now rewrite chain_groups_far.
  - intros pre a b post Hnear.
    destruct (chain_groups_near pre a b post Hnear)
      as [gs1 [g1 [g2 [gs2 [_ [E1 [E2 E3]]]]]]].
    exists gs1, g1, g2, gs2.
    rewrite !sweep_chain_groups. now rewrite E1, E2, E3.
  - reflexivity.
Qed.

Lemma far_iff_bool (a b : detection) :
  far a b <-> Qle_bool (Qabs (center b - center a)) line_height_threshold = false.
Proof.
  rewrite <- starts_new_line_far. unfold starts_new_line, Qgt_bool.
  now rewrite negb_true_iff.
Qed.

Lemma sweep_compares_with_previous_detection_witness :
  exists gs1 g1 g2 gs2,
    sweep (map Triple ([d0] ++ [d15])) = Ok (gs1 ++ [g1])
    /\ sweep (map Triple (d30 :: [])) = Ok (g2 :: gs2)
    /\ sweep (map Triple ([d0] ++ d15 :: d30 :: []))
       = Ok (gs1 ++ (g1 ++ g2) :: gs2).
Proof.
  apply (proj1 (proj2 sweep_compares_with_previous_detection) [d0] d15 d30 []).
  intros Hfar. apply far_iff_bool in Hfar. discriminate Hfar.
Defined.

(* ------------------------------------------------------------------ *)
(** ** The two vertical centers *)

Lemma two_corner_center_le (a b : detection) :
  top_bottom_key a <= top_bottom_key b ->
  (two_corner_center a <= two_corner_center b)%Q.
Proof.
  intros H. unfold two_corner_center, Qdiv.
  apply Qmult_le_compat_r; [now rewrite <- Zle_Qle | discriminate].
Qed.

Lemma sorted_by_two_corner_center (s : list detection) :
  StronglySorted (fun a b => top_bottom_key a <= top_bottom_key b) s ->
  StronglySorted (fun a b => (two_corner_center a <= two_corner_center b)%Q) s.
Proof.
  induction 1 as [| x l Hl IH Hx]; constructor; [exact IH |].
  eapply Forall_impl; [| exact Hx]. intros y. apply two_corner_center_le.
Qed.

(** C2 as stated fails.  The two detections have two-corner centers 5 and
    10, within the threshold of each other, and the function still puts
    them on two lines: the value it compares for the second one is 30. *)
Lemma two_corner_counterexample :
  (two_corner_center flat == 5 /\ two_corner_center skewed == 10)%Q
  /\ (center flat == 5 /\ center skewed == 30)%Q
  /\ two_corner_lines [flat; skewed] = [[flat; skewed]]
  /\ cluster_lines [Triple flat; Triple skewed] = Ok [[flat]; [skewed]]
  /\ cluster_lines [Triple flat; Triple skewed]
     <> Ok (two_corner_lines [flat; skewed]).
Proof.
  split; [split; reflexivity |].
  split; [split; reflexivity |].
  split; [reflexivity |].
  split; [reflexivity | discriminate].
Qed.

(** C2, amended.  The detections are sorted stably and ascending on
    [box[0].y + box[2].y], which is the ascending order of the two-corner
    center [(box[0].y + box[2].y) / 2] with ties in input order.  The value
    the sweep compares with threshold 20 is another one, the sum of the y
    of all the points of the box divided by 4: the lines partition the
    sorted sequence in order, neighbours within a line are at most 20
    apart in that value, and the first member of a line is more than 20
    from the last member of the line before. *)
Theorem vertical_sort_and_sweep_centers :
  (forall ds : list detection,
      Forall geometric ds ->
      exists sorted_results groups,
        sorted key_vertical (map Triple ds) = Ok (map Triple sorted_results)
        /\ stable_sort_of top_bottom_key ds sorted_results
        /\ StronglySorted
             (fun a b => (two_corner_center a <= two_corner_center b)%Q)
             sorted_results
        /\ cluster_lines (map Triple ds) = Ok groups
        /\ concat groups = sorted_results
        /\ Forall (fun g => g <> []) groups
        /\ Forall chained groups
        /\ separated groups)
  /\ (forall (p0 p1 p2 p3 : point) (t : string) (c : Q),
         center {| box := [p0; p1; p2; p3]; text := t; confidence := c |}
         = (inject_Z (snd p0 + snd p1 + snd p2 + snd p3) / 4)%Q
         /\ two_corner_center
              {| box := [p0; p1; p2; p3]; text := t; confidence := c |}
            = (inject_Z (snd p0 + snd p2) / 2)%Q)
  /\ (forall a b : detection,
         far a b <-> (20 < Qabs (center b - center a))%Q).
Proof.
  split; [| split].
  - intros ds Hg.
    exists (sort_by top_bottom_key ds).
    exists (chain_groups (sort_by top_bottom_key ds)).
    split; [now apply sorted_vertical |].
    split; [apply sort_by_stable_sort_of |].
    split; [apply sorted_by_two_corner_center, sort_by_sorted |].
    split; [now apply cluster_lines_geometric |].
    split; [apply chain_groups_concat |].
    split; [apply chain_groups_nonempty |].
    split; [apply chain_groups_chained | apply chain_groups_separated].
  - intros p0 p1 p2 p3 t c. split; reflexivity.
  - intros a b. reflexivity.
Qed.

Lemma vertical_sort_and_sweep_centers_witness :
  exists sorted_results groups,
    sorted key_vertical (map Triple [skewed; flat])
    = Ok (map Triple sorted_results)
    /\ stable_sort_of top_bottom_key [skewed; flat] sorted_results
    /\ StronglySorted
         (fun a b => (two_corner_center a <= two_corner_center b)%Q)
         sorted_results
    /\ cluster_lines (map Triple [skewed; flat]) = Ok groups
    /\ concat groups = sorted_results
    /\ Forall (fun g => g <> []) groups
    /\ Forall chained groups
    /\ separated groups.
Proof.
  apply (proj1 vertical_sort_and_sweep_centers [skewed; flat]).
  repeat constructor.
Defined.

(* ------------------------------------------------------------------ *)
(** ** Input order *)

(** C3.  When the well-formed geometric detections of the input have
    pairwise distinct vertical sort keys, every permutation of the input
    gives the same result.  (Distinct left edges within a line are not
    needed: the horizontal sort starts from the order of the vertical
    one.) *)
Theorem result_independent_of_input_order :
  forall (norm : string -> string) (mime : string) (image : Image)
         (ds ds' : list detection),
    Forall geometric ds ->
    NoDup (map top_bottom_key ds) ->
    Permutation ds ds' ->
    _process_easyocr_result norm mime (map Triple ds') image
    = _process_easyocr_result norm mime (map Triple ds) image.
Proof.
  intros norm mime image ds ds' Hg Hnd HP.
  destruct ds as [| d ds].
  - apply Permutation_nil in HP. now subst.
  - assert (Hne' : ds' <> []).
    { intros ->. apply Permutation_sym, Permutation_nil in HP. discriminate. }
    assert (Hg' : Forall geometric ds')
      by (eapply Permutation_Forall; eassumption).
    rewrite !process_geometric by (assumption || discriminate).
    now rewrite (sort_by_permutation_invariant top_bottom_key (d :: ds) ds').
Qed.

Lemma result_independent_of_input_order_witness :
  _process_easyocr_result normalize_spaces PLAIN_TEXT_MIME_TYPE
    (map Triple (rev single_line_BAC)) page_800_600
  = _process_easyocr_result normalize_spaces PLAIN_TEXT_MIME_TYPE
      (map Triple single_line_BAC) page_800_600.
Proof.
  apply result_independent_of_input_order.
  - repeat constructor.
  - repeat constructor; simpl; intuition discriminate.
  - apply Permutation_rev.
Defined.

(* ------------------------------------------------------------------ *)
(** ** Empty texts *)

Lemma map_text_filter (s : list detection) :
  map text (filter has_text s) = filter truthy (map text s).
Proof.
  unfold has_text. induction s as [| d s IH]; simpl; [reflexivity |].
  destruct (truthy (text d)); simpl; now rewrite IH.
Qed.

Lemma map_item_text_filter (l : list item) :
  map item_text (without_empty_texts l) = filter truthy (map item_text l).
Proof.
  unfold without_empty_texts. induction l as [| x l IH]; simpl; [reflexivity |].
  destruct (truthy (item_text x)); simpl; now rewrite IH.
Qed.

(** An empty-text member adds nothing to the buffer of its line. *)
Lemma line_buffer_without_empty (g : list detection) :
  line_buffer (sort_by left_x (filter has_text g))
  = line_buffer (sort_by left_x g).
Proof.
  unfold line_buffer.
  now rewrite <- sort_by_filter, map_text_filter, tokens_filter.
Qed.

Lemma raw_text_without_empty (gs : list (list detection)) :
  raw_text (map (filter has_text) gs) = raw_text gs.
Proof.
  unfold raw_text. rewrite map_map. f_equal.
  apply map_ext. intros g. apply line_buffer_without_empty.
Qed.

(** C7 as stated fails on the geometric path.  Between detections centered
    at 0 and 30, an empty-text detection centered at 15 keeps "a" and "c"
    on one line; without it they are two lines. *)
Lemma empty_text_counterexample :
  without_empty_texts bridged_input = [Triple d0; Triple d30]
  /\ cluster_lines bridged_input = Ok [[d0; blank15; d30]]
  /\ cluster_lines (without_empty_texts bridged_input) = Ok [[d0]; [d30]]
  /\ (exists r, process_easyocr_result bridged_input page_800_600 = Ok r
                /\ content r = "a c"%string)
  /\ (exists r, process_easyocr_result (without_empty_texts bridged_input)
                  page_800_600 = Ok r
                /\ content r = ("a" ++ nl ++ "c")%string)
  /\ process_easyocr_result bridged_input page_800_600
     <> process_easyocr_result (without_empty_texts bridged_input) page_800_600.
Proof.
  split; [reflexivity |].
  split; [reflexivity |].
  split; [reflexivity |].
  split; [eexists; split; reflexivity |].
  split; [eexists; split; reflexivity | discriminate].
Qed.

(** C7, amended.  On the pre-merged path the elements with an empty text
    are skipped entirely: the result is that of the input without them.
    On the geometric path a detection with an empty text adds no character
    and no space to the buffer of its line, so that the text is the one
    composed from the same lines with their empty-text members removed;
    the detection still takes part in the vertical sort and the sweep that
    form those lines. *)
Theorem empty_texts_are_skipped :
  (forall (norm : string -> string) (mime : string) (image : Image)
          (result : list item),
      norm EmptyString = EmptyString ->
      Forall (fun it => len it = 2) result ->
      _process_easyocr_result norm mime result image
      = _process_easyocr_result norm mime (without_empty_texts result) image)
  /\ (forall (norm : string -> string) (mime : string) (image : Image)
             (ds : list detection),
         ds <> [] ->
         Forall geometric ds ->
         exists groups,
           cluster_lines (map Triple ds) = Ok groups
           /\ _process_easyocr_result norm mime (map Triple ds) image
              = Ok {| content :=
                        norm (raw_text (map (filter has_text) groups));
                      mime_type := mime;
                      metadata := {| meta_width := width image;
                                     meta_height := height image |};
                      chunks := [] |}).
Proof.
  split.
  - intros norm mime image result Hnorm Hall.
    destruct result as [| it l]; [reflexivity |].
    rewrite process_premerged by (assumption || discriminate).
    rewrite <- tokens_filter, <- map_item_text_filter.
    destruct (without_empty_texts (it :: l)) as [| it' l'] eqn:E.
    + cbn [map]. unfold tokens. cbn. now rewrite Hnorm.
    + rewrite process_premerged; [reflexivity | discriminate |].
      rewrite <- E. unfold without_empty_texts.
      rewrite Forall_forall in *. intros x Hx.
      apply filter_In in Hx. now apply Hall.
  - intros norm mime image ds Hne Hg.
    exists (chain_groups (sort_by top_bottom_key ds)).
    split; [now apply cluster_lines_geometric |].
    rewrite process_geometric by assumption.
    now rewrite raw_text_without_empty.
Qed.

Lemma empty_texts_are_skipped_witness :
  _process_easyocr_result normalize_spaces PLAIN_TEXT_MIME_TYPE
    [Pair "Hello" (9 # 10); Pair EmptyString (1 # 2); Pair "World" (8 # 10)]
    page_800_600
  = _process_easyocr_result normalize_spaces PLAIN_TEXT_MIME_TYPE
      (without_empty_texts
         [Pair "Hello" (9 # 10); Pair EmptyString (1 # 2);
          Pair "World" (8 # 10)])
      page_800_600.
Proof.
  apply (proj1 empty_texts_are_skipped).
  - reflexivity.
  - repeat constructor.
Defined.

(* ------------------------------------------------------------------ *)
(** ** Outcomes *)

Lemma key_vertical_ok_inv (x : item) (k : Z) :
  key_vertical x = Ok k -> exists d, x = Triple d /\ geometric d.
Proof.
  destruct x as [t c | d]; [discriminate |].
  unfold key_vertical, index, geometric.
  destruct (nth_error (box d) 0) as [p0 |]; cbn [bind]; [| discriminate].
  destruct (nth_error (box d) 2) as [p2 |] eqn:H2; cbn [bind]; [| discriminate].
  intros _. exists d. split; [reflexivity |].
  assert (2 < length (box d))%nat; [| lia].
  apply nth_error_Some. congruence.
Qed.

Lemma decorate_outcomes (l : list item) :
  (exists ds, l = map Triple ds /\ Forall geometric ds)
  \/ (exists x, In x l /\ key_vertical x = Raise IndexError).
Proof.
  induction l as [| x l IH]; [left; now exists [] |].
  destruct (key_vertical x) as [k | e] eqn:Hx.
  - destruct IH as [[ds [-> Hg]] | [y [Hy Hky]]].
    + destruct (key_vertical_ok_inv x k Hx) as [d [-> Hd]].
      left. exists (d :: ds). split; [reflexivity | now constructor].
    + right. exists y. split; [now right | exact Hky].
  - right. exists x. split; [now left |].
    now rewrite <- (key_vertical_raises_IndexError x e Hx).
Qed.

Lemma not_all_pairs (l : list item) :
  forallb (fun item => len item =? 2) l = false -> exists d, In (Triple d) l.
Proof.
  induction l as [| x l IH]; simpl; [discriminate |].
  destruct x as [t c | d]; simpl.
  - intros H. destruct (IH H) as [d Hd]. exists d. now right.
  - intros _. exists d. now left.
Qed.

(** The shapes of the input decide the outcome: a result on the empty
    list, on 2-tuples only and on well-formed 3-tuples only; IndexError
    from the sort of line 249 on anything else. *)
Lemma process_outcomes (norm : string -> string) (mime : string)
      (image : Image) (l : list item) :
  (exists r, _process_easyocr_result norm mime l image = Ok r)
  \/ _process_easyocr_result norm mime l image = Raise IndexError.
Proof.
  destruct l as [| x l]; [left; eexists; reflexivity |].
  destruct (forallb (fun item => len item =? 2) (x :: l)) eqn:Hall.
  - left. eexists. apply process_premerged; [discriminate |].
    rewrite forallb_forall in Hall. apply Forall_forall.
    intros y Hy. apply Z.eqb_eq. now apply Hall.
  - destruct (not_all_pairs _ Hall) as [d Hd].
    destruct (decorate_outcomes (x :: l)) as [[ds [E Hg]] | Hex].
    + left. rewrite E. eexists. apply process_geometric; [| exact Hg].
      intros ->. discriminate E.
    + right. now apply (process_key_error norm mime image _ d).
Qed.

(* ------------------------------------------------------------------ *)
(** ** Malformed boxes *)

(** C8 as stated fails.  A detection whose box has five points is
    accepted: the function returns its text. *)
Lemma five_point_box_counterexample :
  length (box pentagon) = 5%nat
  /\ process_easyocr_result [Triple pentagon] page_800_600
     = Ok {| content := "five";
             mime_type := PLAIN_TEXT_MIME_TYPE;
             metadata := {| meta_width := 800; meta_height := 600 |};
             chunks := [] |}.
Proof.
  split; reflexivity.
Qed.

(** C8, amended.  The length of a box is never checked.  An input that
    contains a 3-tuple whose box has fewer than 3 points is stopped by
    IndexError when the vertical sort key reads corner 0 or 2, and no
    result is produced; 3-tuples whose boxes have 3 points or more,
    whether 4 or not, are processed to a result.  ValidationError is never
    raised. *)
Theorem short_box_raises_index_error :
  (forall (norm : string -> string) (mime : string) (image : Image)
          (result : list item) (d : detection),
      In (Triple d) result ->
      (length (box d) < 3)%nat ->
      _process_easyocr_result norm mime result image = Raise IndexError)
  /\ (forall (norm : string -> string) (mime : string) (image : Image)
             (ds : list detection),
         ds <> [] ->
         Forall (fun d => (3 <= length (box d))%nat) ds ->
         exists r, _process_easyocr_result norm mime (map Triple ds) image = Ok r)
  /\ (forall (norm : string -> string) (mime : string) (image : Image)
             (result : list item),
         _process_easyocr_result norm mime result image <> Raise ValidationError).
Proof.
  split; [| split].
  - intros norm mime image result d Hin Hshort.
    apply (process_key_error norm mime image result d Hin).
    exists (Triple d). split; [exact Hin | now apply key_vertical_short].
  - intros norm mime image ds Hne Hg.
    eexists. now apply process_geometric.
  - intros norm mime image result.
    destruct (process_outcomes norm mime image result) as [[r Hr] | Hr];
      rewrite Hr; discriminate.
Qed.

Lemma short_box_raises_index_error_witness :
  _process_easyocr_result normalize_spaces PLAIN_TEXT_MIME_TYPE
    [Triple d0; Triple segment] page_800_600
  = Raise IndexError.
Proof.
  apply (proj1 short_box_raises_index_error
           normalize_spaces PLAIN_TEXT_MIME_TYPE page_800_600
           [Triple d0; Triple segment] segment).
  - right. left. reflexivity.
  - simpl. lia.
Defined.

(* ------------------------------------------------------------------ *)
(** ** Mixed shapes *)

(** C9 as stated fails.  A list of one 2-tuple and one 3-tuple meets no
    validation: it is taken down the geometric path, where the vertical
    sort key raises IndexError on the 2-tuple. *)
Lemma mixed_shapes_counterexample :
  forallb (fun item => len item =? 2) mixed_input = false
  /\ key_vertical (Pair "Hello" (9 # 10)) = Raise IndexError
  /\ process_easyocr_result mixed_input page_800_600 = Raise IndexError
  /\ process_easyocr_result mixed_input page_800_600 <> Raise ValidationError.
Proof.
  split; [reflexivity |].
  split; [reflexivity |].
  split; [reflexivity | discriminate].
Qed.

(** C9, amended.  A list that holds both a 2-tuple and a 3-tuple yields
    no result: the test of line 229 sends it down the geometric path, and
    the vertical sort of line 249 raises IndexError when its key indexes
    into the text of a 2-tuple. *)
Theorem mixed_shapes_raise_index_error :
  forall (norm : string -> string) (mime : string) (image : Image)
         (result : list item) (t : string) (c : Q) (d : detection),
    In (Pair t c) result ->
    In (Triple d) result ->
    forallb (fun item => len item =? 2) result = false
    /\ sorted key_vertical result = Raise IndexError
    /\ _process_easyocr_result norm mime result image = Raise IndexError.
Proof.
  intros norm mime image result t c d Hpair Htriple.
  assert (Hex : exists x, In x result /\ key_vertical x = Raise IndexError)
    by (exists (Pair t c); now split).
  split; [now apply (some_triple_forallb result d) |].
  split.
  - apply sorted_raise; [apply key_vertical_raises_IndexError | exact Hex].
  - now apply (process_key_error norm mime image result d).
Qed.

Lemma mixed_shapes_raise_index_error_witness :
  forallb (fun item => len item =? 2) mixed_input = false
  /\ sorted key_vertical mixed_input = Raise IndexError
  /\ _process_easyocr_result normalize_spaces PLAIN_TEXT_MIME_TYPE
       mixed_input page_800_600 = Raise IndexError.
Proof.
  apply (mixed_shapes_raise_index_error
           normalize_spaces PLAIN_TEXT_MIME_TYPE page_800_600 mixed_input
           "Hello" (9 # 10) (token 10 95 "World")).
  - left. reflexivity.
  - right. left. reflexivity.
Defined.

(* ------------------------------------------------------------------ *)
(** ** Confidence *)

Lemma chain_groups_forget (s : list detection) :
  chain_groups (map forget_confidence_of s)
  = map (map forget_confidence_of) (chain_groups s).
Proof.
  induction s as [| a s IH]; [reflexivity |].
  destruct s as [| b s]; [reflexivity |].
  cbn [map] in *. rewrite !chain_groups_cons, IH. unfold cons_line.
  change (center (forget_confidence_of a)) with (center a).
  change (center (forget_confidence_of b)) with (center b).
  destruct (starts_new_line (Some (center a)) (center b)); [reflexivity |].
  destruct (chain_groups (b :: s)); reflexivity.
Qed.

Lemma raw_text_forget (gs : list (list detection)) :
  raw_text (map (map forget_confidence_of) gs) = raw_text gs.
Proof.
  unfold raw_text. rewrite map_map. f_equal. apply map_ext. intros g.
  rewrite (sort_by_map left_x left_x forget_confidence_of) by reflexivity.
  unfold line_buffer. now rewrite map_map.
Qed.

Lemma forget_confidence_triples (ds : list detection) :
  map forget_confidence (map Triple ds)
  = map Triple (map forget_confidence_of ds).
Proof. now rewrite !map_map. Qed.

(** The result does not see the confidences. *)
Lemma process_forget_confidence (norm : string -> string) (mime : string)
      (image : Image) (l : list item) :
  _process_easyocr_result norm mime (map forget_confidence l) image
  = _process_easyocr_result norm mime l image.
Proof.
  destruct l as [| x l]; [reflexivity |].
  destruct (forallb (fun item => len item =? 2) (x :: l)) eqn:Hall.
  - assert (Hp : Forall (fun it => len it = 2) (x :: l)).
    { rewrite forallb_forall in Hall. apply Forall_forall.
      intros y Hy. apply Z.eqb_eq. now apply Hall. }
    rewrite !process_premerged; try assumption; try discriminate.
    + rewrite map_map.
      rewrite (map_ext (fun y => item_text (forget_confidence y)) item_text);
        [reflexivity | now intros [t c | d]].
    + apply Forall_map. eapply Forall_impl; [| exact Hp]. now intros [t c | d].
  - destruct (not_all_pairs _ Hall) as [d Hd].
    destruct (decorate_outcomes (x :: l)) as [[ds [E Hg]] | [y [Hy Hky]]].
    + rewrite E, forget_confidence_triples.
      assert (Hne : ds <> []) by (intros ->; discriminate E).
      assert (Hne' : map forget_confidence_of ds <> [])
        by (intros Hnil; apply map_eq_nil in Hnil; contradiction).
      assert (Hg' : Forall geometric (map forget_confidence_of ds))
        by (apply Forall_map; eapply Forall_impl; [| exact Hg]; now intros d').
      rewrite !process_geometric by assumption.
      rewrite (sort_by_map top_bottom_key top_bottom_key forget_confidence_of)
        by reflexivity.
      now rewrite chain_groups_forget, raw_text_forget.
    + rewrite (process_key_error norm mime image (x :: l) d Hd)
        by (exists y; now split).
      apply (process_key_error norm mime image _ (forget_confidence_of d)).
      * apply (in_map forget_confidence) in Hd. exact Hd.
      * exists (forget_confidence y).
        split; [now apply in_map |].
        destruct y as [t c | d']; [reflexivity | exact Hky].
Qed.

(** C10.  Two inputs that are the same but for the confidence of each
    element get the same outcome on every path, the same result or the
    same exception: the confidence sum and count are computed and
    dropped. *)
Theorem confidence_does_not_influence_result :
  forall (norm : string -> string) (mime : string) (image : Image)
         (result result' : list item),
    map forget_confidence result = map forget_confidence result' ->
    _process_easyocr_result norm mime result image
    = _process_easyocr_result norm mime result' image.
Proof.
  intros norm mime image result result' H.
  rewrite <- (process_forget_confidence norm mime image result).
  rewrite <- (process_forget_confidence norm mime image result').
  now rewrite H.
Qed.

Lemma confidence_does_not_influence_result_witness :
  _process_easyocr_result normalize_spaces PLAIN_TEXT_MIME_TYPE
    [Triple (token 50 95 "B"); Triple (token 10 97 "A")] page_800_600
  = _process_easyocr_result normalize_spaces PLAIN_TEXT_MIME_TYPE
      [Triple {| box := rect 50 95 80 105; text := "B"; confidence := 1 # 3 |};
       Triple {| box := rect 10 97 40 107; text := "A"; confidence := 0 |}]
      page_800_600.
Proof.
  apply confidence_does_not_influence_result. reflexivity.
Defined.

(* ------------------------------------------------------------------ *)
(** ** Which inputs give a result *)

Section Shapes.

Variable norm : string -> string.
Variable mime : string.
Variable image : Image.

(** Every outcome is a result built by [make_result] on the page's
    dimensions, or IndexError. *)
Lemma process_result_form (l : list item) :
  (uniform_shapes l
   /\ exists t, _process_easyocr_result norm mime l image
                = Ok (make_result mime t (width image) (height image)))
  \/ (~ uniform_shapes l
      /\ _process_easyocr_result norm mime l image = Raise IndexError).
Proof.
  destruct l as [| x l].
  { left. split; [left; constructor | eexists; reflexivity]. }
  destruct (forallb (fun item => len item =? 2) (x :: l)) eqn:Hall.
  - assert (Hp : Forall (fun it => len it = 2) (x :: l)).
    { rewrite forallb_forall in Hall. apply Forall_forall.
      intros y Hy. apply Z.eqb_eq. now apply Hall. }
    left. split; [now left |]. eexists.
    apply process_premerged; [discriminate | exact Hp].
  - destruct (not_all_pairs _ Hall) as [d Hd].
    destruct (decorate_outcomes (x :: l)) as [[ds [E Hg]] | Hex].
    + left. split; [right; now exists ds |]. rewrite E. eexists.
      apply process_geometric; [| exact Hg]. intros ->. discriminate E.
    + right.
      assert (HR : _process_easyocr_result norm mime (x :: l) image
                   = Raise IndexError)
        by now apply (process_key_error norm mime image _ d).
      split; [| exact HR].
      intros [Hp | [ds [E Hg]]].
      * rewrite (all_pairs_forallb _ Hp) in Hall. discriminate.
      * rewrite E in HR.
        rewrite process_geometric in HR; [discriminate | | exact Hg].
        intros ->. discriminate E.
Qed.

End Shapes.

(** X1.  The function returns a result exactly on the inputs of one shape
    all through (the empty list, 2-tuples only, or 3-tuples only with
    boxes of 3 points or more); on every other input it raises
    IndexError, and it raises nothing else: in particular the unpackings
    of lines 234, 256 and 279 never fail. *)
Theorem result_exactly_on_uniform_shapes :
  forall (norm : string -> string) (mime : string) (image : Image)
         (result : list item),
    (uniform_shapes result
     /\ exists r, _process_easyocr_result norm mime result image = Ok r)
    \/ (~ uniform_shapes result
        /\ _process_easyocr_result norm mime result image = Raise IndexError).
Proof.
  intros norm mime image result.
  destruct (process_result_form norm mime image result)
    as [[Hu [t Ht]] | [Hn HR]].
  - left. split; [exact Hu | now exists (make_result mime t (width image) (height image))].
  - right. now split.
Qed.

(** X2.  Whatever the path, a result carries the MIME type constant, the
    width and height of the image and an empty list of chunks. *)
Theorem result_carries_page_metadata :
  forall (norm : string -> string) (mime : string) (image : Image)
         (result : list item) (r : ExtractionResult),
    _process_easyocr_result norm mime result image = Ok r ->
    mime_type r = mime
    /\ metadata r = {| meta_width := width image; meta_height := height image |}
    /\ chunks r = [].
Proof.
  intros norm mime image result r Hr.
  destruct (process_result_form norm mime image result)
    as [[_ [t Ht]] | [_ HR]]; rewrite Hr in *; [| discriminate].
  inversion Ht; subst. now repeat split.
Qed.

Lemma result_carries_page_metadata_witness :
  mime_type (make_result PLAIN_TEXT_MIME_TYPE "five" 800 600)
  = PLAIN_TEXT_MIME_TYPE
  /\ metadata (make_result PLAIN_TEXT_MIME_TYPE "five" 800 600)
     = {| meta_width := width page_800_600;
          meta_height := height page_800_600 |}
  /\ chunks (make_result PLAIN_TEXT_MIME_TYPE "five" 800 600) = [].
Proof.
  apply (result_carries_page_metadata normalize_spaces PLAIN_TEXT_MIME_TYPE
           page_800_600 [Triple pentagon]).
  reflexivity.
Defined.

(* ------------------------------------------------------------------ *)
(** ** Lines as a partition of the input *)

Lemma concat_map_perm {A : Type} (f : list A -> list A) (gs : list (list A)) :
  (forall g, Permutation g (f g)) ->
  Permutation (concat gs) (concat (map f gs)).
Proof.
  intros Hf. induction gs as [| g gs IH]; simpl; [constructor |].
  now apply Permutation_app.
Qed.

Lemma length_concat_nonempty {A : Type} (gs : list (list A)) :
  Forall (fun g => g <> []) gs -> (length gs <= length (concat gs))%nat.
Proof.
  induction 1 as [| g gs Hg Hgs IH]; simpl; [lia |].
  rewrite length_app. destruct g; [contradiction | simpl; lia].
Qed.

Lemma cons_line_length (x h : detection) (g : list detection)
      (gs : list (list detection)) :
  length (cons_line x h (g :: gs))
  = ((if starts_new_line (Some (center x)) (center h) then 1 else 0)
     + length (g :: gs))%nat.
Proof.
  unfold cons_line. now destruct (starts_new_line _ _).
Qed.

Lemma chain_groups_length (a : detection) (s : list detection) :
  length (chain_groups (a :: s)) = S (count_breaks (a :: s)).
Proof.
  revert a. induction s as [| b s IH]; intros a; [reflexivity |].
  rewrite chain_groups_cons.
  destruct (chain_groups_head b s) as [g [gs E]].
  pose proof (IH b) as IHb. rewrite E in *.
  rewrite cons_line_length, IHb. cbn [count_breaks]. lia.
Qed.

Lemma chained_single_line (a : detection) (s : list detection) :
  chained (a :: s) -> chain_groups (a :: s) = [a :: s].
Proof.
  revert a. induction s as [| b s IH]; intros a Hc; [reflexivity |].
  destruct Hc as [Hnear Hc].
  rewrite chain_groups_cons, (IH b Hc). unfold cons_line.
  apply starts_new_line_near in Hnear. now rewrite Hnear.
Qed.

(** X3.  On well-formed geometric detections no detection is lost or
    repeated: the lines the text is composed from are non-empty, hold
    together exactly the detections of the input, and are at least one
    and at most as many as the detections. *)
Theorem lines_partition_the_input :
  forall (norm : string -> string) (mime : string) (image : Image)
         (ds : list detection),
    ds <> [] ->
    Forall geometric ds ->
    exists sorted_lines : list (list detection),
      Permutation ds (concat sorted_lines)
      /\ Forall (fun line => line <> []) sorted_lines
      /\ (1 <= length sorted_lines <= length ds)%nat
      /\ _process_easyocr_result norm mime (map Triple ds) image
         = Ok {| content :=
                   norm (String.concat EmptyString
                           (map line_buffer sorted_lines));
                 mime_type := mime;
                 metadata := {| meta_width := width image;
                                meta_height := height image |};
                 chunks := [] |}.
Proof.
  intros norm mime image ds Hne Hg.
  set (s := sort_by top_bottom_key ds).
  exists (map (sort_by left_x) (chain_groups s)).
  assert (HP : Permutation ds (concat (map (sort_by left_x) (chain_groups s)))).
  { rewrite <- (concat_map_perm (sort_by left_x))
      by (intros g; apply sort_by_perm).
    rewrite chain_groups_concat. apply sort_by_perm. }
  assert (Hnonempty : Forall (fun line => line <> [])
                        (map (sort_by left_x) (chain_groups s))).
  { apply Forall_map. eapply Forall_impl; [| apply chain_groups_nonempty].
    intros g Hgne Hnil. apply Hgne.
    apply Permutation_nil. rewrite <- Hnil.
    apply Permutation_sym, sort_by_perm. }
  split; [exact HP |]. split; [exact Hnonempty |]. split.
  - split.
    + rewrite length_map. destruct s as [| a s'] eqn:Es.
      * exfalso. apply Hne. apply Permutation_nil.
        apply Permutation_sym. rewrite <- Es. apply sort_by_perm.
      * rewrite chain_groups_length. lia.
    + rewrite (Permutation_length HP). now apply length_concat_nonempty.
  - rewrite process_geometric by assumption.
    unfold raw_text, make_result. now rewrite map_map.
Qed.

Lemma lines_partition_the_input_witness :
  exists sorted_lines : list (list detection),
    Permutation [d30; d0; d15] (concat sorted_lines)
    /\ Forall (fun line => line <> []) sorted_lines
    /\ (1 <= length sorted_lines <= length [d30; d0; d15])%nat
    /\ _process_easyocr_result normalize_spaces PLAIN_TEXT_MIME_TYPE
         (map Triple [d30; d0; d15]) page_800_600
       = Ok {| content :=
                 normalize_spaces
                   (String.concat EmptyString (map line_buffer sorted_lines));
               mime_type := PLAIN_TEXT_MIME_TYPE;
               metadata := {| meta_width := width page_800_600;
                              meta_height := height page_800_600 |};
               chunks := [] |}.
Proof.
  apply lines_partition_the_input.
  - discriminate.
  - repeat constructor.
Defined.

(** X4.  The number of lines is one more than the number of neighbours of
    the vertically sorted sequence that lie more than the threshold
    apart. *)
Theorem line_count_is_breaks_plus_one :
  forall ds : list detection,
    ds <> [] ->
    Forall geometric ds ->
    exists groups,
      cluster_lines (map Triple ds) = Ok groups
      /\ length groups = S (count_breaks (sort_by top_bottom_key ds)).
Proof.
  intros ds Hne Hg.
  exists (chain_groups (sort_by top_bottom_key ds)).
  split; [now apply cluster_lines_geometric |].
  destruct (sort_by top_bottom_key ds) as [| a s] eqn:Es.
  - exfalso. apply Hne. apply Permutation_nil.
    apply Permutation_sym. rewrite <- Es. apply sort_by_perm.
  - apply chain_groups_length.
Qed.

Lemma line_count_is_breaks_plus_one_witness :
  exists groups,
    cluster_lines (map Triple [skewed; flat]) = Ok groups
    /\ length groups = S (count_breaks (sort_by top_bottom_key [skewed; flat])).
Proof.
  apply line_count_is_breaks_plus_one.
  - discriminate.
  - repeat constructor.
Defined.

(** X5.  A swept sequence is a single line exactly when each detection is
    within the threshold of the one before it, however far the last is
    from the first: the height of a line is not bounded. *)
Theorem single_line_iff_chained :
  forall s : list detection,
    s <> [] ->
    (chained s <-> sweep (map Triple s) = Ok [s]).
Proof.
  intros s Hne. rewrite sweep_chain_groups.
  destruct s as [| a s]; [contradiction |]. split.
  - intros Hc. now rewrite chained_single_line.
  - intros E.
    assert (E' : chain_groups (a :: s) = [a :: s]) by congruence.
    pose proof (chain_groups_chained (a :: s)) as Hall.
    rewrite E' in Hall. now inversion Hall.
Qed.

Lemma single_line_iff_chained_witness :
  chained [d0; d15; d30] <-> sweep (map Triple [d0; d15; d30]) = Ok [[d0; d15; d30]].
Proof.
  apply single_line_iff_chained. discriminate.
Defined.

(* ------------------------------------------------------------------ *)
(** ** The threshold *)

Lemma far_sym (a b : detection) : far a b <-> far b a.
Proof. unfold far. now rewrite Qabs_Qminus. Qed.

Lemma chain_groups_two (x y : detection) :
  chain_groups [x; y]
  = if starts_new_line (Some (center x)) (center y) then [[x]; [y]]
    else [[x; y]].
Proof. reflexivity. Qed.

(** X6.  The threshold is inclusive.  Two well-formed detections, in
    either input order, share a line when their centers are at most 20
    apart, exactly 20 included, and are two lines when they are more
    than 20 apart. *)
Theorem two_detections_threshold :
  forall a b : detection,
    geometric a ->
    geometric b ->
    ((Qabs (center b - center a) <= line_height_threshold)%Q ->
     exists line,
       cluster_lines [Triple a; Triple b] = Ok [line]
       /\ Permutation [a; b] line)
    /\ ((line_height_threshold < Qabs (center b - center a))%Q ->
        exists x y,
          cluster_lines [Triple a; Triple b] = Ok [[x]; [y]]
          /\ Permutation [a; b] [x; y]).
Proof.
  intros a b Ha Hb.
  assert (Hg : Forall geometric [a; b]) by (repeat constructor; assumption).
  change [Triple a; Triple b] with (map Triple [a; b]).
  rewrite (cluster_lines_geometric _ Hg). cbn [sort_by insert_by].
  split.
  - intros Hle.
    assert (Hnear : ~ far a b) by (unfold far; now apply Qle_not_lt).
    destruct (top_bottom_key a <=? top_bottom_key b).
    + exists [a; b]. rewrite chain_groups_two.
      apply starts_new_line_near in Hnear. rewrite Hnear. now split.
    + exists [b; a]. rewrite chain_groups_two.
      rewrite far_sym in Hnear.
      apply starts_new_line_near in Hnear. rewrite Hnear.
      split; [reflexivity | apply perm_swap].
  - intros Hlt.
    assert (Hfar : far a b) by exact Hlt.
    destruct (top_bottom_key a <=? top_bottom_key b).
    + exists a, b. rewrite chain_groups_two.
      apply starts_new_line_far in Hfar. rewrite Hfar. now split.
    + exists b, a. rewrite chain_groups_two.
      rewrite far_sym in Hfar.
      apply starts_new_line_far in Hfar. rewrite Hfar.
      split; [reflexivity | apply perm_swap].
Qed.

(** Centers 5 and 25: exactly the threshold apart. *)
Lemma two_detections_threshold_witness :
  exists line,
    cluster_lines [Triple (token 0 20 "low"); Triple (token 40 0 "high")]
    = Ok [line]
    /\ Permutation [token 0 20 "low"; token 40 0 "high"] line.
Proof.
  apply (proj1 (two_detections_threshold
                  (token 0 20 "low") (token 40 0 "high")
                  ltac:(repeat constructor) ltac:(repeat constructor))).
  discriminate.
Defined.

(* ------------------------------------------------------------------ *)
(** ** What the result depends on *)

Lemma insert_by_map_order {A B : Type} (ka : A -> Z) (kb : B -> Z)
      (f : A -> B) (x : A) (s : list A) :
  (forall y, In y s -> (kb (f x) <=? kb (f y)) = (ka x <=? ka y)) ->
  insert_by kb (f x) (map f s) = map f (insert_by ka x s).
Proof.
  induction s as [| y s IH]; intros H; simpl; [reflexivity |].
  rewrite (H y (or_introl eq_refl)).
  destruct (ka x <=? ka y); simpl; [reflexivity |].
  rewrite IH; [reflexivity |]. intros z Hz. apply H. now right.
Qed.

Lemma sort_by_map_order {A B : Type} (ka : A -> Z) (kb : B -> Z)
      (f : A -> B) (l : list A) :
  (forall x y, In x l -> In y l ->
               (kb (f x) <=? kb (f y)) = (ka x <=? ka y)) ->
  sort_by kb (map f l) = map f (sort_by ka l).
Proof.
  induction l as [| x l IH]; intros H; simpl; [reflexivity |].
  rewrite IH by (intros y z Hy Hz; apply H; now right).
  apply insert_by_map_order. intros y Hy. apply H; [now left |].
  right. eapply Permutation_in; [| exact Hy].
  apply Permutation_sym, sort_by_perm.
Qed.

Lemma chain_groups_map (f : detection -> detection) (s : list detection) :
  (forall a b, In a s -> In b s ->
               starts_new_line (Some (center (f a))) (center (f b))
               = starts_new_line (Some (center a)) (center b)) ->
  chain_groups (map f s) = map (map f) (chain_groups s).
Proof.
  induction s as [| a s IH]; intros H; [reflexivity |].
  destruct s as [| b s]; [reflexivity |].
  cbn [map] in *. rewrite !chain_groups_cons.
  rewrite IH by (intros x y Hx Hy; apply H; now right).
  unfold cons_line. rewrite H by (simpl; auto).
  destruct (starts_new_line (Some (center a)) (center b)); [reflexivity |].
  destruct (chain_groups (b :: s)); reflexivity.
Qed.

Section Respects.

Variable norm : string -> string.
Variable mime : string.
Variable image : Image.

(** A change [f] of the detections of a class [P] that keeps what the
    function reads of them: the order of the two sort keys, the decisions
    of line 259 and the texts. *)
Variable f : detection -> detection.
Variable P : detection -> Prop.

Hypothesis P_geometric : forall d, P d -> geometric d /\ geometric (f d).
Hypothesis keeps_vertical_order :
  forall a b, P a -> P b ->
    (top_bottom_key (f a) <=? top_bottom_key (f b))
    = (top_bottom_key a <=? top_bottom_key b).
Hypothesis keeps_horizontal_order :
  forall a b, P a -> P b ->
    (left_x (f a) <=? left_x (f b)) = (left_x a <=? left_x b).
Hypothesis keeps_line_breaks :
  forall a b, P a -> P b ->
    starts_new_line (Some (center (f a))) (center (f b))
    = starts_new_line (Some (center a)) (center b).
Hypothesis keeps_text : forall d, text (f d) = text d.

Lemma raw_text_respects (gs : list (list detection)) :
  Forall (Forall P) gs -> raw_text (map (map f) gs) = raw_text gs.
Proof.
  intros HP. unfold raw_text. rewrite map_map. f_equal.
  apply map_ext_in. intros g Hg.
  rewrite Forall_forall in HP. specialize (HP g Hg).
  rewrite Forall_forall in HP.
  rewrite (sort_by_map_order left_x left_x f)
    by (intros x y Hx Hy; apply keeps_horizontal_order; now apply HP).
  unfold line_buffer. rewrite map_map.
  now rewrite (map_ext (fun x => text (f x)) text keeps_text).
Qed.

Lemma process_respects (ds : list detection) :
  Forall P ds ->
  _process_easyocr_result norm mime (map Triple (map f ds)) image
  = _process_easyocr_result norm mime (map Triple ds) image.
Proof.
  intros HP. destruct ds as [| d ds]; [reflexivity |].
  assert (Hin : forall x, In x (d :: ds) -> P x)
    by (now apply Forall_forall).
  assert (Hg : Forall geometric (d :: ds)).
  { eapply Forall_impl; [| exact HP]. intros x Hx. now apply P_geometric. }
  assert (Hg' : Forall geometric (map f (d :: ds))).
  { apply Forall_map. eapply Forall_impl; [| exact HP].
    intros x Hx. now apply P_geometric. }
  rewrite !process_geometric; try assumption; try discriminate.
  assert (Hsorted : forall x, In x (sort_by top_bottom_key (d :: ds)) -> P x).
  { intros x Hx. apply Hin. eapply Permutation_in; [| exact Hx].
    apply Permutation_sym, sort_by_perm. }
  rewrite (sort_by_map_order top_bottom_key top_bottom_key f)
    by (intros x y Hx Hy; apply keeps_vertical_order; now apply Hin).
  rewrite chain_groups_map
    by (intros x y Hx Hy; apply keeps_line_breaks; now apply Hsorted).
  rewrite raw_text_respects; [reflexivity |].
  apply Forall_concat. rewrite chain_groups_concat.
  now apply Forall_forall.
Qed.

End Respects.

Lemma Qgt_bool_compat (x x' y : Q) :
  (x == x')%Q -> Qgt_bool x y = Qgt_bool x' y.
Proof.
  intros H. unfold Qgt_bool. f_equal.
  apply eq_true_iff_eq. rewrite !Qle_bool_iff. now rewrite H.
Qed.

Lemma translate_line_breaks (dx dy : Z) (a b : detection) :
  quadrilateral a -> quadrilateral b ->
  starts_new_line (Some (center (translate dx dy a)))
                  (center (translate dx dy b))
  = starts_new_line (Some (center a)) (center b).
Proof.
  unfold quadrilateral. intros Ha Hb.
  destruct a as [[| a0 [| a1 [| a2 [| a3 [| ? ?]]]]] ta ca]; try discriminate.
  destruct b as [[| b0 [| b1 [| b2 [| b3 [| ? ?]]]]] tb cb]; try discriminate.
  unfold starts_new_line. apply Qgt_bool_compat. apply Qabs_wd.
  unfold center, y_center, translate. cbn [box map fold_left].
  unfold Qeq, Qminus, Qplus, Qopp, Qdiv, Qmult, Qinv, inject_Z.
  cbn [Qnum Qden]. simpl. lia.
Qed.

Lemma translate_vertical_order (dx dy : Z) (a b : detection) :
  quadrilateral a -> quadrilateral b ->
  (top_bottom_key (translate dx dy a) <=? top_bottom_key (translate dx dy b))
  = (top_bottom_key a <=? top_bottom_key b).
Proof.
  unfold quadrilateral. intros Ha Hb.
  destruct a as [[| a0 [| a1 [| a2 [| a3 [| ? ?]]]]] ta ca]; try discriminate.
  destruct b as [[| b0 [| b1 [| b2 [| b3 [| ? ?]]]]] tb cb]; try discriminate.
  unfold top_bottom_key, translate. cbn [box map nth fst snd].
  destruct (Z.leb_spec (snd a0 + dy + (snd a2 + dy)) (snd b0 + dy + (snd b2 + dy)));
    destruct (Z.leb_spec (snd a0 + snd a2) (snd b0 + snd b2)); lia || reflexivity.
Qed.

Lemma translate_horizontal_order (dx dy : Z) (a b : detection) :
  quadrilateral a -> quadrilateral b ->
  (left_x (translate dx dy a) <=? left_x (translate dx dy b))
  = (left_x a <=? left_x b).
Proof.
  unfold quadrilateral. intros Ha Hb.
  destruct a as [[| a0 ?] ta ca]; try discriminate.
  destruct b as [[| b0 ?] tb cb]; try discriminate.
  unfold left_x, translate. cbn [box map nth fst snd].
  destruct (Z.leb_spec (fst a0 + dx) (fst b0 + dx));
    destruct (Z.leb_spec (fst a0) (fst b0)); lia || reflexivity.
Qed.



Lemma blanked_ys (d : detection) :
  map snd (box (blanked d)) = map snd (box d).
Proof.
  unfold blanked. cbn [box]. destruct (box d) as [| p rest]; [reflexivity |].
  cbn [map]. f_equal. rewrite map_map. reflexivity.
Qed.

Lemma blanked_top_bottom_key (d : detection) :
  top_bottom_key (blanked d) = top_bottom_key d.
Proof.
  unfold top_bottom_key, blanked. cbn [box].
  now destruct (box d) as [| p0 [| p1 [| p2 rest]]].
Qed.

Lemma blanked_left_x (d : detection) : left_x (blanked d) = left_x d.
Proof.
  unfold left_x, blanked. cbn [box]. now destruct (box d).
Qed.

Lemma blanked_center (d : detection) : center (blanked d) = center d.
Proof.
  unfold center, y_center. now rewrite blanked_ys.
Qed.

Lemma blanked_geometric (d : detection) : geometric (blanked d) <-> geometric d.
Proof.
  unfold geometric, blanked. cbn [box].
  destruct (box d) as [| p rest]; [reflexivity |].
  cbn [length]. now rewrite length_map.
Qed.

Lemma read_part_blanked (d d' : detection) :
  read_part d = read_part d' -> blanked d = blanked d'.
Proof.
  unfold read_part, blanked, left_x. intros H.
  injection H as Hx Hys Ht. rewrite Ht. f_equal.
  destruct (box d) as [| p r]; destruct (box d') as [| p' r'];
    try discriminate; [reflexivity |].
  cbn [map nth] in *. injection Hys as Hy Hr.
  f_equal.
  - destruct p, p'. cbn [fst snd] in *. congruence.
  - rewrite <- (map_map snd (fun y => (0, y)) r).
    rewrite <- (map_map snd (fun y => (0, y)) r'). now rewrite Hr.
Qed.

Lemma process_blanked (norm : string -> string) (mime : string)
      (image : Image) (ds : list detection) :
  Forall geometric ds ->
  _process_easyocr_result norm mime (map Triple (map blanked ds)) image
  = _process_easyocr_result norm mime (map Triple ds) image.
Proof.
  apply (process_respects norm mime image blanked geometric).
  - intros d Hd. split; [exact Hd | now apply blanked_geometric].
  - intros a b _ _. now rewrite !blanked_top_bottom_key.
  - intros a b _ _. now rewrite !blanked_left_x.
  - intros a b _ _. now rewrite !blanked_center.
  - reflexivity.
Qed.

(** X8.  Of a well-formed 3-tuple the function reads the x of corner 0,
    the y of every point of the box and the text, and nothing else: two
    inputs that agree on these give the same result, whatever the other
    x coordinates and the confidences are. *)
Theorem result_reads_left_edge_heights_and_text :
  forall (norm : string -> string) (mime : string) (image : Image)
         (ds ds' : list detection),
    Forall geometric ds ->
    map read_part ds = map read_part ds' ->
    _process_easyocr_result norm mime (map Triple ds) image
    = _process_easyocr_result norm mime (map Triple ds') image.
Proof.
  intros norm mime image ds ds' Hg H.
  assert (Hb : map blanked ds = map blanked ds').
  { revert ds' H. clear Hg.
    induction ds as [| d ds IH]; intros [| d' ds'] H;
      try discriminate; [reflexivity |].
    cbn [map] in *.
    pose proof (f_equal (hd (read_part d)) H) as Hd.
    pose proof (f_equal (@tl _) H) as Hds. cbn [hd tl] in Hd, Hds.
    f_equal; [now apply read_part_blanked | now apply IH]. }
  assert (Hg' : Forall geometric ds').
  { apply Forall_forall. intros x Hx.
    apply blanked_geometric.
    apply (in_map blanked) in Hx. rewrite <- Hb in Hx.
    apply in_map_iff in Hx. destruct Hx as [y [<- Hy]].
    apply blanked_geometric. rewrite Forall_forall in Hg. now apply Hg. }
  rewrite <- (process_blanked norm mime image ds Hg).
  rewrite <- (process_blanked norm mime image ds' Hg').
  now rewrite Hb.
Qed.

Lemma result_reads_left_edge_heights_and_text_witness :
  _process_easyocr_result normalize_spaces PLAIN_TEXT_MIME_TYPE
    (map Triple [d15; skewed]) page_800_600
  = _process_easyocr_result normalize_spaces PLAIN_TEXT_MIME_TYPE
      (map Triple
         [{| box := [(50, 10); (0, 10); (999, 20); (-4, 20)];
             text := "b"; confidence := 1 # 7 |};
          {| box := [(50, 0); (1, 0); (2, 20); (3, 100)];
             text := "skewed"; confidence := 0 |}])
      page_800_600.
Proof.
  apply result_reads_left_edge_heights_and_text.
  - repeat constructor.
  - reflexivity.
Defined.

(* ------------------------------------------------------------------ *)
(** ** Language codes *)

Lemma supported_In (lang : string) :
  supported lang = true <-> In lang EASYOCR_SUPPORTED_LANGUAGE_CODES.
Proof.
  unfold supported. rewrite existsb_exists. split.
  - intros [x [Hx E]]. apply String.eqb_eq in E. now subst.
  - intros H. exists lang. split; [exact H | apply String.eqb_refl].
Qed.

Lemma forallb_false_Exists {A : Type} (p : A -> bool) (l : list A) :
  forallb p l = false -> Exists (fun x => p x = false) l.
Proof.
  induction l as [| x l IH]; simpl; [discriminate |].
  destruct (p x) eqn:E; simpl; intros H.
  - right. now apply IH.
  - now left.
Qed.

(** Every code of the table is written in lower case. *)
Lemma table_is_lower_case :
  Forall (fun code => lower code = code) EASYOCR_SUPPORTED_LANGUAGE_CODES.
Proof.
  unfold EASYOCR_SUPPORTED_LANGUAGE_CODES. repeat constructor.
Qed.

Lemma supported_lower (lang : string) :
  supported lang = true -> lower lang = lang.
Proof.
  intros H. apply supported_In in H.
  pose proof table_is_lower_case as HT. rewrite Forall_forall in HT.
  now apply HT.
Qed.

Lemma validate_supported_list (codes : list string) :
  Forall (fun code => In code EASYOCR_SUPPORTED_LANGUAGE_CODES) codes ->
  _validate_language_code (inr codes) = Ok codes.
Proof.
  intros H. unfold _validate_language_code.
  assert (Hl : map lower codes = codes).
  { induction H as [| c l Hc Hrest IH]; [reflexivity |].
    cbn [map]. rewrite IH. f_equal.
    apply supported_lower. now apply supported_In. }
  rewrite Hl.
  assert (Hs : forallb supported codes = true).
  { apply forallb_forall. rewrite Forall_forall in H.
    intros x Hx. apply supported_In. now apply H. }
  now rewrite Hs.
Qed.

(** X9.  [_validate_language_code] accepts its argument exactly when the
    lower-case form of every code is in the table, and then returns those
    lower-case forms in the order given; otherwise, when the lower-case
    form of some code is not in the table, it raises ValidationError. *)
Theorem validation_accepts_exactly_supported_codes :
  forall language_codes : string + list string,
    (Forall (fun code => In (lower code) EASYOCR_SUPPORTED_LANGUAGE_CODES)
       (codes_of language_codes)
     /\ _validate_language_code language_codes
        = Ok (map lower (codes_of language_codes)))
    \/ (Exists (fun code => ~ In (lower code) EASYOCR_SUPPORTED_LANGUAGE_CODES)
          (codes_of language_codes)
        /\ _validate_language_code language_codes = Raise ValidationError).
Proof.
  intros language_codes. unfold _validate_language_code.
  assert (E : match language_codes with
              | inl code => [lower code]
              | inr codes => map lower codes
              end = map lower (codes_of language_codes))
    by now destruct language_codes.
  rewrite E. clear E.
  destruct (forallb supported (map lower (codes_of language_codes))) eqn:H.
  - left. split; [| reflexivity].
    rewrite forallb_forall in H. apply Forall_forall. intros c Hc.
    apply supported_In. apply H. now apply in_map.
  - right. split; [| reflexivity].
    apply forallb_false_Exists in H. apply Exists_map in H.
    eapply Exists_impl; [| exact H]. cbn beta. intros c Hc Hin.
    apply supported_In in Hin. congruence.
Qed.

(** X10.  A list of codes taken from the table, as they are written
    there, is accepted and returned unchanged; so is each single code of
    the table, as a one-element list. *)
Theorem table_codes_are_accepted_as_written :
  forall codes : list string,
    Forall (fun code => In code EASYOCR_SUPPORTED_LANGUAGE_CODES) codes ->
    _validate_language_code (inr codes) = Ok codes
    /\ Forall (fun code => _validate_language_code (inl code) = Ok [code])
         codes.
Proof.
  intros codes H. split; [now apply validate_supported_list |].
  eapply Forall_impl; [| exact H]. cbn beta. intros c Hc.
  unfold _validate_language_code.
  rewrite (supported_lower c) by now apply supported_In.
  cbn [forallb]. apply supported_In in Hc. now rewrite Hc.
Qed.

Lemma table_codes_are_accepted_as_written_witness :
  _validate_language_code (inr EASYOCR_SUPPORTED_LANGUAGE_CODES)
  = Ok EASYOCR_SUPPORTED_LANGUAGE_CODES
  /\ Forall (fun code => _validate_language_code (inl code) = Ok [code])
       EASYOCR_SUPPORTED_LANGUAGE_CODES.
Proof.
  apply table_codes_are_accepted_as_written.
  apply Forall_forall. intros c Hc. exact Hc.
Defined.

(** X11.  Validation is idempotent: the list it returns is accepted when
    validated again, and comes back unchanged. *)
Theorem validation_is_idempotent :
  forall (language_codes : string + list string) (languages : list string),
    _validate_language_code language_codes = Ok languages ->
    _validate_language_code (inr languages) = Ok languages.
Proof.
  intros language_codes languages H.
  apply validate_supported_list.
  unfold _validate_language_code in H.
  destruct (forallb supported _) eqn:Hs in H; [| discriminate].
  inversion H; subst. rewrite forallb_forall in Hs.
  apply Forall_forall. intros c Hc. apply supported_In. now apply Hs.
Qed.

Lemma validation_is_idempotent_witness :
  _validate_language_code (inr ["en"; "ch_sim"]%string)
  = Ok ["en"; "ch_sim"]%string.
Proof.
  apply (validation_is_idempotent (inr ["EN"; "Ch_Sim"]%string)).
  reflexivity.
Defined.

(* ------------------------------------------------------------------ *)
(** ** The backend *)

Lemma validate_raises_ValidationError
      (language_codes : string + list string) (e : exn) :
  _validate_language_code language_codes = Raise e -> e = ValidationError.
Proof.
  unfold _validate_language_code.
  destruct (forallb supported _); [discriminate | congruence].
Qed.

Section BackendFacts.

Variable norm : string -> string.
Variable mime : string.
Variable W : Collaborators.

(** A run of [_init_easyocr] either succeeds with a reader in place, or
    fails from an unset reader and leaves it unset. *)
Lemma init_outcomes (kwargs : Kwargs (Options W)) (st : option (Reader W)) :
  (exists reader, _init_easyocr W kwargs st = (inr tt, Some reader)
                  /\ (st = None \/ st = Some reader))
  \/ (st = None
      /\ exists e, _init_easyocr W kwargs st = (inl e, None)
                   /\ (e = MissingDependencyError
                       \/ e = Builtin ValidationError
                       \/ exists f, e = OCRError init_message (ForeignError f))).
Proof.
  unfold _init_easyocr. destruct st as [reader |].
  { left. exists reader. auto. }
  destruct (easyocr_installed W).
  - destruct (_validate_language_code (language_or_default W kwargs))
      as [languages | e] eqn:Hv.
    + destruct (easyocr_Reader W languages (use_gpu kwargs)) as [f | reader].
      * right. split; [reflexivity |]. eexists. split; [reflexivity |].
        right. right. now exists f.
      * left. exists reader. auto.
    + right. split; [reflexivity |]. eexists. split; [reflexivity |].
      right. left. now rewrite (validate_raises_ValidationError _ _ Hv).
  - right. split; [reflexivity |]. eexists. split; [reflexivity |]. now left.
Qed.

(** With a reader in place the body of the [try] fails only through the
    collaborator or through IndexError. *)
Lemma read_and_process_failures (image : Image) (beam : Z)
      (kwargs : Kwargs (Options W)) (reader : Reader W)
      (e : error (Foreign W)) :
  read_and_process norm mime W image beam kwargs (Some reader) = inl e ->
  (exists f, e = ForeignError f) \/ e = Builtin IndexError.
Proof.
  unfold read_and_process.
  destruct (readtext W reader (tobytes W image) beam kwargs) as [f | result].
  - intros H. inversion H. left. now exists f.
  - destruct (process_result_form norm mime image result)
      as [[_ [t Ht]] | [_ HR]].
    + rewrite Ht. discriminate.
    + rewrite HR. intros H. inversion H. now right.
Qed.

(** The failures of [process_image]. *)
Lemma process_image_failures (image : Image) (kwargs : Kwargs (Options W))
      (st st' : option (Reader W)) (e : error (Foreign W)) :
  process_image norm mime W image kwargs st = (inl e, st') ->
  (st = None /\ st' = None
   /\ (e = MissingDependencyError
       \/ e = Builtin ValidationError
       \/ exists f, e = OCRError init_message (ForeignError f)))
  \/ (st' <> None
      /\ (e = KeyError "beam_width"
          \/ (exists f, e = OCRError ocr_message (ForeignError f))
          \/ e = OCRError ocr_message (Builtin IndexError))).
Proof.
  unfold process_image.
  destruct (init_outcomes kwargs st)
    as [[reader [Hi Hst]] | [Hst [e0 [Hi He0]]]]; rewrite Hi.
  - destruct (beam_width kwargs) as [beam |].
    + destruct (read_and_process norm mime W image beam
                  (without_beam_width W kwargs) (Some reader))
        as [e1 | r] eqn:Hr; intros H; inversion H; subst.
      right. split; [discriminate |].
      destruct (read_and_process_failures _ _ _ _ _ Hr) as [[f ->] | ->].
      * right. left. now exists f.
      * right. now right.
    + intros H. inversion H; subst. right. split; [discriminate | now left].
  - intros H. inversion H; subst. left. auto.
Qed.

End BackendFacts.

(** X13.  [process_image] fails in six ways only.  Before a reader is
    set: MissingDependencyError, ValidationError, or the OCRError of a
    failed construction of the reader, and the reader stays unset.  With
    a reader set: KeyError when "beam_width" is not among the keyword
    arguments, or the OCRError "Failed to OCR using EasyOCR" whose cause
    is what the collaborator raised or the IndexError of the result
    processing.  IndexError itself never escapes. *)
Theorem process_image_failure_modes :
  forall (norm : string -> string) (mime : string) (W : Collaborators)
         (image : Image) (kwargs : Kwargs (Options W))
         (st st' : option (Reader W)) (e : error (Foreign W)),
    process_image norm mime W image kwargs st = (inl e, st') ->
    (st = None /\ st' = None
     /\ (e = MissingDependencyError
         \/ e = Builtin ValidationError
         \/ exists f, e = OCRError init_message (ForeignError f)))
    \/ (st' <> None
        /\ (e = KeyError "beam_width"
            \/ (exists f, e = OCRError ocr_message (ForeignError f))
            \/ e = OCRError ocr_message (Builtin IndexError))).
Proof.
  intros norm mime W image kwargs st st' e.
  apply process_image_failures.
Qed.

Lemma process_image_failure_modes_witness :
  let e : error string := OCRError ocr_message (Builtin IndexError) in
  let st' : option (list string) := Some ["en"%string] in
  (@None (list string) = None /\ st' = None
   /\ (e = MissingDependencyError
       \/ e = Builtin ValidationError
       \/ exists f, e = OCRError init_message (ForeignError f)))
  \/ (st' <> None
      /\ (e = KeyError "beam_width"
          \/ (exists f, e = OCRError ocr_message (ForeignError f))
          \/ e = OCRError ocr_message (Builtin IndexError))).
Proof.
  cbv zeta.
  apply (process_image_failure_modes normalize_spaces PLAIN_TEXT_MIME_TYPE
           (sample_world mixed_input) page_800_600
           (mkKwargs None None (Some 5) tt) None).
  reflexivity.
Defined.

(** X14.  [process_file] lets no KeyError, IndexError or collaborator
    exception escape: once the reader is in place every failure is the
    OCRError "Failed to load or process image using EasyOCR", whose cause
    is what [Image.open] raised or the failure of [process_image]; before
    that, the failures are those of the initialization, and the reader
    stays unset. *)
Theorem process_file_failure_modes :
  forall (norm : string -> string) (mime : string) (W : Collaborators)
         (path : Path W) (kwargs : Kwargs (Options W))
         (st st' : option (Reader W)) (e : error (Foreign W)),
    process_file norm mime W path kwargs st = (inl e, st') ->
    (st = None /\ st' = None
     /\ (e = MissingDependencyError
         \/ e = Builtin ValidationError
         \/ exists f, e = OCRError init_message (ForeignError f)))
    \/ (st' <> None
        /\ exists cause,
            e = OCRError load_message cause
            /\ ((exists f, cause = ForeignError f)
                \/ cause = KeyError "beam_width"
                \/ (exists f, cause = OCRError ocr_message (ForeignError f))
                \/ cause = OCRError ocr_message (Builtin IndexError))).
Proof.
  intros norm mime W path kwargs st st' e. unfold process_file.
  destruct (init_outcomes W kwargs st)
    as [[reader [Hi Hst]] | [Hst [e0 [Hi He0]]]]; rewrite Hi.
  - destruct (Image_open W path) as [f | image].
    + intros H. inversion H; subst. right. split; [discriminate |].
      eexists. split; [reflexivity |]. left. now exists f.
    + destruct (process_image norm mime W image kwargs (Some reader))
        as [[e1 | r] st1] eqn:Hp; intros H; inversion H; subst.
      destruct (process_image_failures norm mime W _ _ _ _ _ Hp)
        as [[Hnone _] | [Hset Hcause]]; [discriminate |].
      right. split; [exact Hset |].
      exists e1. split; [reflexivity |]. right. exact Hcause.
  - intros H. inversion H; subst. left. auto.
Qed.

Lemma process_file_failure_modes_witness :
  let e : error string :=
    OCRError load_message (KeyError "beam_width") in
  let st' : option (list string) := Some ["en"%string] in
  (@None (list string) = None /\ st' = None
   /\ (e = MissingDependencyError
       \/ e = Builtin ValidationError
       \/ exists f, e = OCRError init_message (ForeignError f)))
  \/ (st' <> None
      /\ exists cause,
          e = OCRError load_message cause
          /\ ((exists f, cause = ForeignError f)
              \/ cause = KeyError "beam_width"
              \/ (exists f, cause = OCRError ocr_message (ForeignError f))
              \/ cause = OCRError ocr_message (Builtin IndexError))).
Proof.
  cbv zeta.
  apply (process_file_failure_modes normalize_spaces PLAIN_TEXT_MIME_TYPE
           (sample_world hello_world) "page.png"%string
           (mkKwargs None None None tt) None).
  reflexivity.
Defined.

(** X16.  With a reader in place and "beam_width" given, what [readtext]
    returns decides the call: detections of one shape all through give
    the result of [_process_easyocr_result] on them; any other list
    gives the OCRError "Failed to OCR using EasyOCR" with IndexError as
    its cause.  "beam_width" is not among the keyword arguments handed to
    [readtext]. *)
Theorem process_image_on_detections :
  forall (norm : string -> string) (mime : string) (W : Collaborators)
         (image : Image) (kwargs : Kwargs (Options W)) (reader : Reader W)
         (beam : Z) (detections : list item),
    beam_width kwargs = Some beam ->
    readtext W reader (tobytes W image) beam
      {| language := language kwargs;
         use_gpu := use_gpu kwargs;
         beam_width := None;
         other_options := other_options kwargs |}
    = inr detections ->
    (uniform_shapes detections
     /\ exists r,
         _process_easyocr_result norm mime detections image = Ok r
         /\ process_image norm mime W image kwargs (Some reader)
            = (inr r, Some reader))
    \/ (~ uniform_shapes detections
        /\ process_image norm mime W image kwargs (Some reader)
           = (inl (OCRError ocr_message (Builtin IndexError)), Some reader)).
Proof.
  intros norm mime W image kwargs reader beam detections Hb Hr.
  unfold process_image. cbn [_init_easyocr]. rewrite Hb.
  unfold read_and_process, without_beam_width. rewrite Hr.
  destruct (process_result_form norm mime image detections)
    as [[Hu [t Ht]] | [Hn HR]].
  - left. split; [exact Hu |]. eexists. split; [exact Ht |]. now rewrite Ht.
  - right. split; [exact Hn |]. now rewrite HR.
Qed.

Lemma process_image_on_detections_witness :
  let W := sample_world mixed_input in
  (uniform_shapes mixed_input
   /\ exists r,
       _process_easyocr_result normalize_spaces PLAIN_TEXT_MIME_TYPE
         mixed_input page_800_600 = Ok r
       /\ process_image normalize_spaces PLAIN_TEXT_MIME_TYPE W page_800_600
            (mkKwargs (Some (inl "xx"%string)) None (Some 5) tt)
            (Some ["en"%string])
          = (inr r, Some ["en"%string]))
  \/ (~ uniform_shapes mixed_input
      /\ process_image normalize_spaces PLAIN_TEXT_MIME_TYPE W page_800_600
           (mkKwargs (Some (inl "xx"%string)) None (Some 5) tt)
           (Some ["en"%string])
         = (inl (OCRError ocr_message (Builtin IndexError)),
            Some ["en"%string])).
Proof.
  cbv zeta.
  apply (process_image_on_detections normalize_spaces PLAIN_TEXT_MIME_TYPE
           (sample_world mixed_input) page_800_600
           (mkKwargs (Some (inl "xx"%string)) None (Some 5) tt)
           ["en"%string] 5 mixed_input); reflexivity.
Defined.

(* ------------------------------------------------------------------ *)
(** ** The reader under calls in flight *)

Lemma init_step_once_set (W : Collaborators) (s s' : Shared W) :
  init_step W s s' ->
  shared_reader s <> None ->
  shared_reader s' <> None
  /\ (length (in_flight s') <= length (in_flight s))%nat
  /\ (in_flight s = [] -> s' = s).
Proof.
  intros Hstep Hset.
  destruct Hstep as [s _ | s kwargs _ _ | s kwargs languages Hnone _ _
                     | s before after reader E | s before after e E].
  - auto.
  - auto.
  - contradiction.
  - cbn [shared_reader in_flight]. rewrite E, !length_app. cbn [length].
    split; [discriminate |]. split; [lia |].
    intros Hnil. rewrite Hnil in E. now destruct before.
  - cbn [shared_reader in_flight]. rewrite E, !length_app. cbn [length].
    split; [exact Hset |]. split; [lia |].
    intros Hnil. rewrite Hnil in E. now destruct before.
Qed.

Lemma run_once_set (W : Collaborators) (s s' : Shared W) :
  run W s s' ->
  shared_reader s <> None ->
  shared_reader s' <> None
  /\ (length (in_flight s') <= length (in_flight s))%nat
  /\ (in_flight s = [] -> s' = s).
Proof.
  induction 1 as [s | s1 s2 s3 Hrun IH Hstep]; intros Hset; [auto |].
  destruct (IH Hset) as [Hset2 [Hlen2 Hquiet2]].
  destruct (init_step_once_set W s2 s3 Hstep Hset2) as [Hset3 [Hlen3 Hquiet3]].
  split; [exact Hset3 |]. split; [lia |].
  intros Hnil. specialize (Hquiet2 Hnil). subst s2. now apply Hquiet3.
Qed.

(** A call of [_init_easyocr] with no other call in between is a run. *)
Lemma init_alone_is_a_run (W : Collaborators) (kwargs : Kwargs (Options W))
      (st : option (Reader W)) :
  run W (mkShared st []) (mkShared (snd (_init_easyocr W kwargs st)) []).
Proof.
  unfold _init_easyocr. destruct st as [reader |]; [apply run_stop |].
  destruct (easyocr_installed W) eqn:Hi; [| apply run_stop].
  destruct (_validate_language_code (language_or_default W kwargs))
    as [languages | e] eqn:Hv; [| apply run_stop].
  destruct (easyocr_Reader W languages (use_gpu kwargs)) as [f | reader] eqn:Hr;
    cbn [snd].
  - eapply run_step.
    + eapply run_step; [apply run_stop |].
      apply (enter_awaits W (mkShared None []) kwargs languages);
        [reflexivity | exact Hi | exact Hv].
    + cbn [in_flight]. rewrite Hr.
      apply (resume_raises W (mkShared None [inl f]) [] [] f). reflexivity.
  - eapply run_step.
    + eapply run_step; [apply run_stop |].
      apply (enter_awaits W (mkShared None []) kwargs languages);
        [reflexivity | exact Hi | exact Hv].
    + cbn [in_flight]. rewrite Hr.
      apply (resume_assigns W (mkShared None [inr reader]) [] [] reader).
      reflexivity.
Qed.

(** Two initializations in flight at once, for "en" and for "fr": the
    one that comes back second replaces the reader of the first. *)
Lemma two_calls_in_flight_replace :
  let W := sample_world hello_world in
  let quiet : Shared W := @mkShared (sample_world hello_world) None [] in
  let first : Shared W := @mkShared (sample_world hello_world) (Some ["en"%string]) [inr ["fr"%string]] in
  let second : Shared W := @mkShared (sample_world hello_world) (Some ["fr"%string]) [] in
  run W quiet first /\ run W first second.
Proof.
  cbv zeta. split.
  - eapply run_step.
    + eapply run_step.
      * eapply run_step; [apply run_stop |].
        apply (enter_awaits (sample_world hello_world) (@mkShared (sample_world hello_world) None [])
                 (mkKwargs None None None tt) ["en"%string]); reflexivity.
      * apply (enter_awaits (sample_world hello_world)
                 (@mkShared (sample_world hello_world) None [inr ["en"%string]])
                 (mkKwargs (Some (inl "FR"%string)) None None tt)
                 ["fr"%string]); reflexivity.
    + apply (resume_assigns (sample_world hello_world)
               (@mkShared (sample_world hello_world) None [inr ["fr"%string]; inr ["en"%string]])
               [inr ["fr"%string]] [] ["en"%string]).
      reflexivity.
  - eapply run_step; [apply run_stop |].
    apply (resume_assigns (sample_world hello_world)
             (@mkShared (sample_world hello_world) (Some ["en"%string]) [inr ["fr"%string]])
             [] [] ["fr"%string]).
    reflexivity.
Qed.



(** X15.  A call of [process_image] takes its result from [readtext] on
    the reader it has when its initialization returns.  When it finds a
    reader on line 321, that is the reader found, whatever language the
    call names: nothing is validated or built, so it raises neither
    ValidationError nor MissingDependencyError nor the OCRError of the
    initialization.  When it finds none and succeeds, that is the reader
    it built itself, for its own validated languages in lower case and
    with its own "use_gpu".  The state argument is the class variable as
    the call reads it on line 321.  This holds with other calls in
    flight too: from the test of line 321, or from the assignment of
    line 340, to the read of [self._reader] on line 178 the call does
    not [await], so that no other call writes the variable in between.
    Which reader a later call finds is another matter: that depends on
    the initializations in flight. *)
Theorem result_comes_from_found_or_built_reader :
  (forall (norm : string -> string) (mime : string) (W : Collaborators)
          (image : Image) (kwargs : Kwargs (Options W)) (reader : Reader W)
          (r : ExtractionResult) (st' : option (Reader W)),
      process_image norm mime W image kwargs (Some reader) = (inr r, st') ->
      exists beam detections,
        beam_width kwargs = Some beam
        /\ readtext W reader (tobytes W image) beam
             (without_beam_width W kwargs) = inr detections
        /\ _process_easyocr_result norm mime detections image = Ok r)
  /\ (forall (norm : string -> string) (mime : string) (W : Collaborators)
             (image : Image) (kwargs : Kwargs (Options W))
             (r : ExtractionResult) (st' : option (Reader W)),
         process_image norm mime W image kwargs None = (inr r, st') ->
         exists languages reader beam detections,
           easyocr_installed W = true
           /\ _validate_language_code (language_or_default W kwargs)
              = Ok languages
           /\ easyocr_Reader W languages (use_gpu kwargs) = inr reader
           /\ beam_width kwargs = Some beam
           /\ readtext W reader (tobytes W image) beam
                (without_beam_width W kwargs) = inr detections
           /\ _process_easyocr_result norm mime detections image = Ok r)
  /\ (forall (norm : string -> string) (mime : string) (W : Collaborators)
             (image : Image) (kwargs : Kwargs (Options W))
             (reader : Reader W),
         fst (process_image norm mime W image kwargs (Some reader))
         <> inl (Builtin ValidationError)
         /\ fst (process_image norm mime W image kwargs (Some reader))
            <> inl MissingDependencyError
         /\ forall f,
             fst (process_image norm mime W image kwargs (Some reader))
             <> inl (OCRError init_message (ForeignError f))).
Proof.
  assert (Hfound :
            forall norm mime W image kwargs reader r st',
              process_image norm mime W image kwargs (Some reader)
              = (inr r, st') ->
              exists beam detections,
                beam_width kwargs = Some beam
                /\ readtext W reader (tobytes W image) beam
                     (without_beam_width W kwargs) = inr detections
                /\ _process_easyocr_result norm mime detections image = Ok r).
  { intros norm mime W image kwargs reader r st' H.
    unfold process_image in H. cbn [_init_easyocr] in H.
    destruct (beam_width kwargs) as [beam |]; [| discriminate].
    unfold read_and_process in H.
    destruct (readtext W reader (tobytes W image) beam
                (without_beam_width W kwargs)) as [f | detections] eqn:Hr;
      [discriminate |].
    destruct (_process_easyocr_result norm mime detections image)
      as [r0 | e] eqn:Hp; [| discriminate].
    exists beam, detections.
    split; [reflexivity |]. split; [exact Hr |]. congruence. }
  split; [exact Hfound | split].
  - intros norm mime W image kwargs r st' H.
    destruct (easyocr_installed W) eqn:Hi;
      [| unfold process_image, _init_easyocr in H; rewrite Hi in H;
         discriminate].
    destruct (_validate_language_code (language_or_default W kwargs))
      as [languages | e] eqn:Hv;
      [| unfold process_image, _init_easyocr in H; rewrite Hi, Hv in H;
         discriminate].
    destruct (easyocr_Reader W languages (use_gpu kwargs))
      as [f | reader] eqn:Hr;
      [unfold process_image, _init_easyocr in H; rewrite Hi, Hv, Hr in H;
       discriminate |].
    assert (Hsame : process_image norm mime W image kwargs None
                    = process_image norm mime W image kwargs (Some reader)).
    { unfold process_image, _init_easyocr. now rewrite Hi, Hv, Hr. }
    rewrite Hsame in H.
    destruct (Hfound _ _ _ _ _ _ _ _ H) as [beam [detections [Hb [Ht Hp]]]].
    exists languages, reader, beam, detections. auto 10.
  - intros norm mime W image kwargs reader.
    destruct (process_image norm mime W image kwargs (Some reader))
      as [[e | r] st1] eqn:Hp; cbn [fst];
      [| repeat split; try intros f; discriminate].
    destruct (process_image_failures norm mime W _ _ _ _ _ Hp)
      as [[Hnone _] | [_ [He | [[f0 He] | He]]]];
      [discriminate | | |]; subst e;
      repeat split; try intros f; discriminate.
Qed.

Lemma result_comes_from_found_or_built_reader_witness :
  let W := sample_world hello_world in
  exists beam detections,
    beam_width (mkKwargs (Options := Options W)
                  (Some (inl "xx"%string)) None (Some 5) tt) = Some beam
    /\ readtext W ["en"%string] (tobytes W page_800_600) beam
         (without_beam_width W
            (mkKwargs (Some (inl "xx"%string)) None (Some 5) tt))
       = inr detections
    /\ _process_easyocr_result normalize_spaces PLAIN_TEXT_MIME_TYPE
         detections page_800_600
       = Ok (make_result PLAIN_TEXT_MIME_TYPE
               ("Hello" ++ String "010" "World") 800 600).
Proof.
  cbv zeta.
  apply (proj1 result_comes_from_found_or_built_reader
           normalize_spaces PLAIN_TEXT_MIME_TYPE (sample_world hello_world)
           page_800_600 (mkKwargs (Some (inl "xx"%string)) None (Some 5) tt)
           ["en"%string] _ (Some ["en"%string])).
  reflexivity.
Defined.
